(** * ghollector/blob.go: the Blob record, its metadata layer and snapshots

    A shallow embedding of [blob.go].  A Blob wraps a [*simplejson.Json];
    Go maps are reference values, so the documents live in an explicit
    store of map objects and a document value may point into it.  The
    functions of [strings], [fmt] and [go-simplejson] that [blob.go] calls
    are modelled next to it, each under the name it has in Go. *)

From Stdlib Require Import ZArith Ascii String DecimalString.
From stdpp Require Import base option list gmap strings fin_maps.

Set Warnings "-register-all".
Local Open Scope string_scope.
Local Open Scope list_scope.

(** ** Package [strings] *)

Module strings.

(** [strings.HasPrefix(s, prefix)]: [s] begins with [prefix]. *)
Fixpoint HasPrefix (s prefix : string) {struct prefix} : bool :=
  match prefix with
  | EmptyString => true
  | String p prefix' =>
      match s with
      | EmptyString => false
      | String c s' => Ascii.eqb c p && HasPrefix s' prefix'
      end
  end.

(** [strings.Split(s, sep)] for a one-byte separator: the pieces of [s]
    between the occurrences of [sep].  The result is never empty:
    splitting the empty string gives one empty piece. *)
Fixpoint Split (s : string) (sep : ascii) : list string :=
  match s with
  | EmptyString => [EmptyString]
  | String c rest =>
      if Ascii.eqb c sep then EmptyString :: Split rest sep
      else match Split rest sep with
           | piece :: pieces => String c piece :: pieces
           | [] => [String c EmptyString]
           end
  end.

End strings.

(** ** Go values held in an [interface{}] *)

(** Address of a [map[string]interface{}] object in the store. *)
Abbreviation loc := nat.

(** The dynamic values a document holds: what the JSON decoder produces
    ([nil], [bool], [string], [json.Number], [[]interface{}],
    [map[string]interface{}]) and Go integers, which callers of [Push] pass.
    A map is a reference: two values [VMap l] denote the same object. *)
Inductive value : Type :=
| VNil
| VBool (b : bool)
| VString (s : string)
| VNumber (digits : string)
| VInt (n : Z)
| VSlice (elems : list value)
| VMap (l : loc).

(** The store: the map objects allocated so far, by address. *)
Abbreviation heap := (list (gmap string value)).

(** [make(map[string]interface{})]: a new, empty object at a fresh address. *)
Definition make_map (h : heap) : loc * heap := (length h, h ++ [∅]).

(** [m[key] = val] on the object at [l]. *)
Definition map_store (h : heap) (l : loc) (key : string) (val : value) : heap :=
  match h !! l with
  | Some m => <[l := <[key := val]> m]> h
  | None => h
  end.

(** Go's [error] values that reach a caller of [blob.go]: the two built
    by [fmt.Errorf] in [pushSpecialAttribute], with the operands of the
    format, and the three the JSON decoder returns. *)
Inductive error : Type :=
| InvalidMetadataField (key : string)
| BadMetadataValue (val : value) (key : string)
| SyntaxError (c : ascii)
| EOF
| ErrUnexpectedEOF.

(** ** Package [simplejson] *)

Module simplejson.

(** [type Json struct { data interface{} }]: a Blob owns its [Json]
    cell, so the cell is represented by the value of its [data] field. *)
Abbreviation Json := value.

(** [simplejson.New()]. *)
Definition New (h : heap) : Json * heap :=
  let '(l, h') := make_map h in (VMap l, h').

(** [j.Interface()]. *)
Definition Interface (j : Json) : value := j.

(** [j.Map()]: the type assertion [j.data.(map[string]interface{})]. *)
Definition Map (h : heap) (j : Json) : option (gmap string value) :=
  match j with
  | VMap l => h !! l
  | _ => None
  end.

(** [j.Get(key)]: the member [key] of an object, and a [Json] holding
    [nil] when [j] is not an object or has no such member. *)
Definition Get (h : heap) (j : Json) (key : string) : Json :=
  match Map h j with
  | Some m => match m !! key with
              | Some val => val
              | None => VNil
              end
  | None => VNil
  end.

(** [j.GetPath(branch...)]: [Get] along the keys of [branch]. *)
Fixpoint GetPath (h : heap) (j : Json) (branch : list string) : Json :=
  match branch with
  | [] => j
  | p :: rest => GetPath h (Get h j p) rest
  end.

(** [j.CheckGet(key)]: the member and [true], or [nil, false]. *)
Definition CheckGet (h : heap) (j : Json) (key : string) : option Json :=
  match Map h j with
  | Some m => m !! key
  | None => None
  end.

(** One turn of the loop of [SetPath]: from the object [curr], step to
    the object stored under [b], first storing a new empty object there
    when [b] is missing or holds something that is not an object. *)
Definition descend (h : heap) (curr : loc) (b : string) : loc * heap :=
  match Map h (VMap curr) with
  | Some m =>
      match m !! b with
      | Some (VMap n) => (n, h)
      | _ => let '(n, h1) := make_map h in (n, map_store h1 curr b (VMap n))
      end
  | None => (curr, h)
  end.

(** The loop of [SetPath] over [branch[:len-1]] followed by the final
    store [curr[branch[len-1]] = val]. *)
Fixpoint setPathFrom (h : heap) (curr : loc) (branch : list string)
    (val : value) : heap :=
  match branch with
  | [] => h
  | b :: rest =>
      match rest with
      | [] => map_store h curr b val
      | _ :: _ => let '(n, h1) := descend h curr b in
                  setPathFrom h1 n rest val
      end
  end.

(** [j.SetPath(branch, val)]: the new [data] of the cell and the store. *)
Definition SetPath (h : heap) (j : Json) (branch : list string)
    (val : value) : Json * heap :=
  match branch with
  | [] => (val, h)
  | _ :: _ =>
      let '(root, h0) :=
        match Map h j with
        | Some _ => (j, h)
        | None => New h
        end in
      match root with
      | VMap curr => (root, setPathFrom h0 curr branch val)
      | _ => (root, h0)
      end
  end.

End simplejson.

(** ** Package [encoding/json]: the decoder behind [simplejson.NewJson] *)

Module json.

Local Open Scope char_scope.

Definition isSpace (c : ascii) : bool :=
  (c =? " ") || (c =? "009") || (c =? "013") || (c =? "010").

Definition between (lo hi c : ascii) : bool :=
  (N_of_ascii lo <=? N_of_ascii c)%N && (N_of_ascii c <=? N_of_ascii hi)%N.

Definition isDigit (c : ascii) : bool := between "0" "9" c.

Definition isHex (c : ascii) : bool :=
  between "0" "9" c || between "a" "f" c || between "A" "F" c.

(** The double quote. *)
Definition dquote : ascii := "034".

(** *** Decoding a string literal ([unquote]) *)

Definition hexval (c : ascii) : N :=
  let n := N_of_ascii c in
  if between "0" "9" c then (n - 48)%N
  else if between "a" "f" c then (n - 87)%N
  else (n - 55)%N.

(** [getu4] on the four digits after [\u]. *)
Definition getu4 (a b c d : ascii) : N :=
  (hexval a * 4096 + hexval b * 256 + hexval c * 16 + hexval d)%N.

(** [utf8.EncodeRune]. *)
Definition EncodeRune (r : N) : string :=
  let byte n := ascii_of_N n in
  if (r <? 128)%N then String (byte r) EmptyString
  else if (r <? 2048)%N then
    String (byte (192 + r / 64)%N) (String (byte (128 + r mod 64)%N) EmptyString)
  else if (r <? 65536)%N then
    String (byte (224 + r / 4096)%N)
      (String (byte (128 + (r / 64) mod 64)%N)
         (String (byte (128 + r mod 64)%N) EmptyString))
  else
    String (byte (240 + r / 262144)%N)
      (String (byte (128 + (r / 4096) mod 64)%N)
         (String (byte (128 + (r / 64) mod 64)%N)
            (String (byte (128 + r mod 64)%N) EmptyString))).

Definition ReplacementChar : N := 65533%N.

(** [utf16.IsSurrogate]. *)
Definition IsSurrogate (r : N) : bool := (55296 <=? r)%N && (r <? 57344)%N.

(** [utf16.DecodeRune]. *)
Definition DecodeRune (r1 r2 : N) : N :=
  if (55296 <=? r1)%N && (r1 <? 56320)%N && (56320 <=? r2)%N && (r2 <? 57344)%N
  then ((r1 - 55296) * 1024 + (r2 - 56320) + 65536)%N
  else ReplacementChar.

(** The byte an escape [\c] stands for. *)
Definition unescape (c : ascii) : ascii :=
  if c =? "b" then "008" else if c =? "f" then "012"
  else if c =? "n" then "010" else if c =? "r" then "013"
  else if c =? "t" then "009" else c.

(** [unquote] on the bytes between the quotes of a literal the scanner
    has accepted.  Bytes outside escapes are copied as they are: the
    payload is taken to be UTF-8, so the decoder's replacement of
    ill-formed sequences by U+FFFD never applies. *)
Fixpoint unquote (raw : list ascii) : string :=
  match raw with
  | [] => EmptyString
  | c :: rest =>
      if c =? "092" then
        match rest with
        | [] => EmptyString
        | e :: rest1 =>
            if e =? "u" then
              match rest1 with
              | a :: b :: c1 :: d :: rest2 =>
                  let rr := getu4 a b c1 d in
                  if IsSurrogate rr then
                    match rest2 with
                    | b1 :: u1 :: a' :: b' :: c' :: d' :: rest3 =>
                        let dec := DecodeRune rr (getu4 a' b' c' d') in
                        if (b1 =? "092") && (u1 =? "u") && isHex a' && isHex b'
                           && isHex c' && isHex d'
                           && negb (dec =? ReplacementChar)%N
                        then (EncodeRune dec +:+ unquote rest3)%string
                        else (EncodeRune ReplacementChar +:+ unquote rest2)%string
                    | _ => (EncodeRune ReplacementChar +:+ unquote rest2)%string
                    end
                  else (EncodeRune rr +:+ unquote rest2)%string
              | _ => EmptyString
              end
            else String (unescape e) (unquote rest1)
        end
      else String c (unquote rest)
  end.

(** *** The scanner and the values it builds *)

(** An open container: the object being filled, with the key whose
    value is awaited if any, or the elements of an array read so far,
    last first. *)
Inductive frame : Type :=
| FObject (m : loc) (key : option string)
| FArray (elems : list value).

(** The states of [scanner.step]; a literal under way carries the bytes
    read so far, last first. *)
Inductive state : Type :=
| stateBeginValue
| stateBeginValueOrEmpty
| stateBeginStringOrEmpty
| stateBeginString
| stateInString (raw : list ascii)
| stateInStringEsc (raw : list ascii)
| stateInStringEscU (n : nat) (raw : list ascii)
| stateEndValue
| stateNeg (lit : list ascii)
| state1 (lit : list ascii)
| state0 (lit : list ascii)
| stateDot (lit : list ascii)
| stateDot0 (lit : list ascii)
| stateE (lit : list ascii)
| stateESign (lit : list ascii)
| stateE0 (lit : list ascii)
| stateWord (rest : list ascii) (v : value)
| stateEndTop (v : value)
| stateError (err : error).

Record scanner : Type := mkScanner {
  store : heap;
  parseState : list frame;
  step : state
}.

Definition fail (s : scanner) (c : ascii) : scanner :=
  mkScanner (store s) (parseState s) (stateError (SyntaxError c)).

Definition goto (s : scanner) (st : state) : scanner :=
  mkScanner (store s) (parseState s) st.

(** A value is complete: hand it to the container it belongs to. *)
Definition endValue (h : heap) (ps : list frame) (v : value) : scanner :=
  match ps with
  | [] => mkScanner h [] (stateEndTop v)
  | FArray elems :: ps' => mkScanner h (FArray (v :: elems) :: ps') stateEndValue
  | FObject m (Some k) :: ps' =>
      mkScanner (map_store h m k v) (FObject m None :: ps') stateEndValue
  | FObject m None :: ps' => mkScanner h ps (stateError ErrUnexpectedEOF)
  end.

(** [stateEndValue]: after a key, a member or an element. *)
Definition afterValue (s : scanner) (c : ascii) : scanner :=
  if isSpace c then s
  else match parseState s with
       | FObject m (Some k) :: _ =>
           if c =? ":" then goto s stateBeginValue else fail s c
       | FObject m None :: ps =>
           if c =? "," then goto s stateBeginString
           else if c =? "}" then endValue (store s) ps (VMap m)
           else fail s c
       | FArray elems :: ps =>
           if c =? "," then goto s stateBeginValue
           else if c =? "]" then endValue (store s) ps (VSlice (rev elems))
           else fail s c
       | [] => fail s c
       end.

(** A string literal is closed: a key of the open object, or a value. *)
Definition endString (s : scanner) (raw : list ascii) : scanner :=
  let str := unquote (rev raw) in
  match parseState s with
  | FObject m None :: ps =>
      mkScanner (store s) (FObject m (Some str) :: ps) stateEndValue
  | ps => endValue (store s) ps (VString str)
  end.

(** A number ends before [c]; with [UseNumber] it is kept as the
    [json.Number] of its text, and [c] is read by [stateEndValue]. *)
Definition endNumber (s : scanner) (lit : list ascii) (c : ascii) : scanner :=
  let s' := endValue (store s) (parseState s)
              (VNumber (string_of_list_ascii (rev lit))) in
  match step s' with
  | stateEndTop _ => s'
  | _ => afterValue s' c
  end.

Definition beginString (s : scanner) (c : ascii) : scanner :=
  if isSpace c then s
  else if c =? dquote then goto s (stateInString [])
  else fail s c.

Definition beginValue (s : scanner) (c : ascii) : scanner :=
  if isSpace c then goto s stateBeginValue
  else if c =? "{" then
    let '(m, h) := make_map (store s) in
    mkScanner h (FObject m None :: parseState s) stateBeginStringOrEmpty
  else if c =? "[" then
    mkScanner (store s) (FArray [] :: parseState s) stateBeginValueOrEmpty
  else if c =? dquote then goto s (stateInString [])
  else if c =? "-" then goto s (stateNeg [c])
  else if c =? "0" then goto s (state0 [c])
  else if c =? "t" then goto s (stateWord ["r"; "u"; "e"] (VBool true))
  else if c =? "f" then goto s (stateWord ["a"; "l"; "s"; "e"] (VBool false))
  else if c =? "n" then goto s (stateWord ["u"; "l"; "l"] VNil)
  else if between "1" "9" c then goto s (state1 [c])
  else fail s c.

(** [s.step(s, c)]: the scanner after the byte [c]. *)
Definition scan (s : scanner) (c : ascii) : scanner :=
  match step s with
  | stateBeginValue => beginValue s c
  | stateBeginValueOrEmpty =>
      if isSpace c then s
      else if c =? "]" then afterValue s c
      else beginValue s c
  | stateBeginStringOrEmpty =>
      if isSpace c then s
      else if c =? "}" then afterValue s c
      else beginString s c
  | stateBeginString => beginString s c
  | stateInString raw =>
      if c =? dquote then endString s raw
      else if c =? "092" then goto s (stateInStringEsc (c :: raw))
      else if (N_of_ascii c <? 32)%N then fail s c
      else goto s (stateInString (c :: raw))
  | stateInStringEsc raw =>
      if (c =? "b") || (c =? "f") || (c =? "n") || (c =? "r") || (c =? "t")
         || (c =? "092") || (c =? "/") || (c =? dquote)
      then goto s (stateInString (c :: raw))
      else if c =? "u" then goto s (stateInStringEscU 0 (c :: raw))
      else fail s c
  | stateInStringEscU n raw =>
      if isHex c then
        if (n <? 3)%nat then goto s (stateInStringEscU (S n) (c :: raw))
        else goto s (stateInString (c :: raw))
      else fail s c
  | stateEndValue => afterValue s c
  | stateNeg lit =>
      if c =? "0" then goto s (state0 (c :: lit))
      else if between "1" "9" c then goto s (state1 (c :: lit))
      else fail s c
  | state1 lit =>
      if isDigit c then goto s (state1 (c :: lit))
      else if c =? "." then goto s (stateDot (c :: lit))
      else if (c =? "e") || (c =? "E") then goto s (stateE (c :: lit))
      else endNumber s lit c
  | state0 lit =>
      if c =? "." then goto s (stateDot (c :: lit))
      else if (c =? "e") || (c =? "E") then goto s (stateE (c :: lit))
      else endNumber s lit c
  | stateDot lit =>
      if isDigit c then goto s (stateDot0 (c :: lit)) else fail s c
  | stateDot0 lit =>
      if isDigit c then goto s (stateDot0 (c :: lit))
      else if (c =? "e") || (c =? "E") then goto s (stateE (c :: lit))
      else endNumber s lit c
  | stateE lit =>
      if (c =? "+") || (c =? "-") then goto s (stateESign (c :: lit))
      else if isDigit c then goto s (stateE0 (c :: lit))
      else fail s c
  | stateESign lit =>
      if isDigit c then goto s (stateE0 (c :: lit)) else fail s c
  | stateE0 lit =>
      if isDigit c then goto s (stateE0 (c :: lit)) else endNumber s lit c
  | stateWord rest v =>
      match rest with
      | [] => fail s c
      | c' :: rest' =>
          if c =? c' then
            match rest' with
            | [] => endValue (store s) (parseState s) v
            | _ :: _ => goto s (stateWord rest' v)
            end
          else fail s c
      end
  | stateEndTop _ => s
  | stateError _ => s
  end.

(** [Decoder.Decode] into an empty [interface{}] with [UseNumber]: the
    first JSON value of the payload, built in the store [h].  The bytes
    after that value are not read.  At the end of the payload a number
    at top level is complete; anything else still open is
    [io.ErrUnexpectedEOF], and a payload of white space only is
    [io.EOF].  On an error nothing has been allocated. *)
Definition Decode (h : heap) (payload : string) : (value * heap) + error :=
  let bytes := list_ascii_of_string payload in
  let s := fold_left scan bytes (mkScanner h [] stateBeginValue) in
  let open := if forallb isSpace bytes then EOF else ErrUnexpectedEOF in
  match step s with
  | stateEndTop v => inl (v, store s)
  | stateError err => inr err
  | state1 lit | state0 lit | stateDot0 lit | stateE0 lit =>
      match parseState s with
      | [] => inl (VNumber (string_of_list_ascii (rev lit)), store s)
      | _ :: _ => inr open
      end
  | _ => inr open
  end.

End json.

(** [simplejson.NewJson(body)]: a [Json] holding the decoded value. *)
Definition NewJson (h : heap) (body : string) : (simplejson.Json * heap) + error :=
  json.Decode h body.

(** ** Package [fmt] *)

Module fmt.

(** The members of a map are printed by increasing key, in byte order
    (what [fmt] does since Go 1.12). *)
Fixpoint insert_sorted (e : string * value) (l : list (string * value))
    : list (string * value) :=
  match l with
  | [] => [e]
  | e' :: l' => if String.leb (fst e) (fst e') then e :: l
                else e' :: insert_sorted e l'
  end.

Definition sort_keys (l : list (string * value)) : list (string * value) :=
  foldr insert_sorted [] l.

(** [fmt.Sprintf("%v", v)].  Printing follows the references of the
    store, so it takes fuel for the containers it enters; [None] is a
    print that did not finish within [fuel] (Go does not return on a
    cyclic value) or met an address with no object.  Scalars need no
    fuel. *)
Fixpoint Sprint (fuel : nat) (h : heap) (v : value) : option string :=
  match v with
  | VNil => Some "<nil>"
  | VBool b => Some (if b then "true" else "false")
  | VString s => Some s
  | VNumber digits => Some digits
  | VInt n => Some (NilZero.string_of_int (Z.to_int n))
  | VSlice elems =>
      match fuel with
      | O => None
      | S fuel' =>
          match mapM (Sprint fuel' h) elems with
          | Some parts => Some ("[" +:+ String.concat " " parts +:+ "]")
          | None => None
          end
      end
  | VMap l =>
      match fuel with
      | O => None
      | S fuel' =>
          match h !! l with
          | Some m =>
              match mapM (fun e => match Sprint fuel' h (snd e) with
                                   | Some t => Some (fst e +:+ ":" +:+ t)
                                   | None => None
                                   end)
                         (sort_keys (map_to_list m)) with
              | Some parts => Some ("map[" +:+ String.concat " " parts +:+ "]")
              | None => None
              end
          | None => None
          end
      end
  end.

End fmt.

(** ** [blob.go] *)

(** [time.Time], as an instant on the clock. *)
Definition Time := Z.
Bind Scope Z_scope with Time.

Definition MetadataType : string := "_type".
Definition MetadataSnapshotId : string := "_snapshot_id".
Definition MetadataSnapshotField : string := "_snapshot_field".

(** [type Blob struct].  The field [Type] of the source is [Type_] here. *)
Record Blob : Type := mkBlob {
  Data : simplejson.Json;
  Id : string;
  SnapshotId : string;
  SnapshotField : string;
  Timestamp : Time;
  Type_ : string
}.

(** The three string fields the metadata table points at
    ([&b.Type], [&b.SnapshotId], [&b.SnapshotField]). *)
Inductive metaField : Type := FType | FSnapshotId | FSnapshotField.

(** [*target = strValue]. *)
Definition assign (b : Blob) (target : metaField) (strValue : string) : Blob :=
  match target with
  | FType => mkBlob (Data b) (Id b) (SnapshotId b) (SnapshotField b) (Timestamp b) strValue
  | FSnapshotId => mkBlob (Data b) (Id b) strValue (SnapshotField b) (Timestamp b) (Type_ b)
  | FSnapshotField => mkBlob (Data b) (Id b) (SnapshotId b) strValue (Timestamp b) (Type_ b)
  end.

(** [NewBlobFromJson(event, id, json)]; [now] is what [time.Now()] reads. *)
Definition NewBlobFromJson (now : Time) (event id : string)
    (json : simplejson.Json) : Blob :=
  {| Data := json; Id := id; SnapshotId := EmptyString; SnapshotField := EmptyString;
     Timestamp := now; Type_ := event |}.

(** [NewBlob(event, id)]. *)
Definition NewBlob (now : Time) (event id : string) (h : heap) : Blob * heap :=
  let '(json, h') := simplejson.New h in
  (NewBlobFromJson now event id json, h').

(** [b.HasAttribute(attr)]. *)
Definition HasAttribute (h : heap) (b : Blob) (attr : string) : bool :=
  match simplejson.CheckGet h (Data b) attr with
  | Some _ => true
  | None => false
  end.

(** The table [metaFields] of [pushSpecialAttribute]. *)
Definition metaFields : gmap string metaField :=
  <[MetadataType := FType]>
    (<[MetadataSnapshotId := FSnapshotId]>
       (<[MetadataSnapshotField := FSnapshotField]> ∅)).

(** [b.pushSpecialAttribute(key, value)]: the Blob afterwards and the
    error returned ([None] for [nil]). *)
Definition pushSpecialAttribute (b : Blob) (key : string) (val : value)
    : Blob * option error :=
  match metaFields !! key with
  | None => (b, Some (InvalidMetadataField key))
  | Some target =>
      match val with
      | VString strValue => (assign b target strValue, None)
      | _ => (b, Some (BadMetadataValue val key))
      end
  end.

(** [b.Push(key, value)]: the Blob and the store afterwards, and the
    error returned. *)
Definition Push (h : heap) (b : Blob) (key : string) (val : value)
    : Blob * heap * option error :=
  if strings.HasPrefix key "_" then
    let '(b', err) := pushSpecialAttribute b key val in (b', h, err)
  else
    let path := strings.Split key "." in
    let '(data, h') := simplejson.SetPath h (Data b) path val in
    (mkBlob data (Id b) (SnapshotId b) (SnapshotField b) (Timestamp b) (Type_ b),
     h', None).

(** [b.Snapshot()].  The outer option is whether the call returns at all
    within [fuel] (only the print of the id takes any); the inner one is
    the pointer returned, [None] for [nil]. *)
Definition Snapshot (fuel : nat) (h : heap) (b : Blob) : option (option Blob) :=
  if String.eqb (SnapshotId b) EmptyString
     || String.eqb (SnapshotField b) EmptyString then
    Some None
  else
    let snapshot := simplejson.Get h (Data b) (SnapshotField b) in
    match fmt.Sprint fuel h
            (simplejson.Interface
               (simplejson.GetPath h snapshot
                  (strings.Split (SnapshotId b) "."))) with
    | Some snapshotId =>
        Some (Some {| Data := snapshot; Id := snapshotId;
                      SnapshotId := EmptyString; SnapshotField := EmptyString;
                      Timestamp := Timestamp b; Type_ := Type_ b |})
    | None => None
    end.

(** [NewBlobFromPayload(event, id, payload)]: the Blob and the store, or
    the error (the Blob returned is then [nil]). *)
Definition NewBlobFromPayload (now : Time) (event id : string) (h : heap)
    (payload : string) : (Blob * heap) + error :=
  match NewJson h payload with
  | inr err => inr err
  | inl (d, h') => inl (NewBlobFromJson now event id d, h')
  end.

(** ** Notions the statements below are phrased with *)

(** Resolving a dotted path member by member: [None] as soon as a
    segment is not a member of the object reached so far (or what was
    reached is not an object). *)
Fixpoint resolve (h : heap) (j : simplejson.Json) (branch : list string)
    : option value :=
  match branch with
  | [] => Some j
  | p :: rest =>
      match simplejson.CheckGet h j p with
      | Some v => resolve h v rest
      | None => None
      end
  end.

(** [nesting n h v]: [v] nests containers (arrays, objects of the store)
    at most [n] deep, and every address met on the way holds an object. *)
Fixpoint nesting (n : nat) (h : heap) (v : value) : bool :=
  match v with
  | VSlice elems =>
      match n with
      | O => false
      | S n' => forallb (nesting n' h) elems
      end
  | VMap l =>
      match n with
      | O => false
      | S n' =>
          match h !! l with
          | Some m => forallb (fun e => nesting n' h (snd e)) (map_to_list m)
          | None => false
          end
      end
  | _ => true
  end.

(** [edge h l l']: the object at [l] has a member that is the object at
    [l'].  These are the links [SetPath] and [GetPath] follow. *)
Definition edge (h : heap) (l l' : loc) : Prop :=
  exists m k, h !! l = Some m /\ m !! k = Some (VMap l').

(** The objects below [root] are allocated and none of them lies below
    itself: the document rooted at [root] is a finite tree, possibly with
    shared subtrees. *)
Definition tree_below (h : heap) (root : loc) : Prop :=
  forall l, rtc (edge h) root l -> l < length h /\ ~ tc (edge h) l l.

(** A document value is well formed when it is not an object, or the
    objects below it form a tree. *)
Definition doc_wf (h : heap) (j : simplejson.Json) : Prop :=
  match j with
  | VMap root => tree_below h root
  | _ => True
  end.

(** A store in allocation order: every object that is a member of
    another was allocated after it.  The decoder and [SetPath] build
    such stores, and their documents are trees. *)
Definition ordered (h : heap) : Prop :=
  forall l m k l',
    h !! l = Some m -> m !! k = Some (VMap l') -> l < l' < length h.

(** A value that is not itself an object (it may be an array). *)
Definition not_object (v : value) : Prop := forall l, v <> VMap l.

(** The open objects of the scanner, innermost first, were allocated in
    that order, all before [bound]. *)
Fixpoint stack_ok (bound : nat) (ps : list json.frame) : Prop :=
  match ps with
  | [] => True
  | json.FObject m _ :: ps' => m < bound /\ stack_ok m ps'
  | json.FArray _ :: ps' => stack_ok bound ps'
  end.

(** The value a state carries is a literal or an allocated object. *)
Definition state_ok (bound : nat) (st : json.state) : Prop :=
  match st with
  | json.stateEndTop (VMap l) => l < bound
  | json.stateWord _ (VMap _) => False
  | _ => True
  end.

(** What the scanner keeps true while it builds a value. *)
Definition scanner_inv (s : json.scanner) : Prop :=
  ordered (json.store s)
  /\ stack_ok (length (json.store s)) (json.parseState s)
  /\ state_ok (length (json.store s)) (json.step s).

(** A sequence of [Push] calls on one Blob, whatever each returns. *)
Fixpoint pushes (h : heap) (b : Blob) (ops : list (string * value))
    : Blob * heap :=
  match ops with
  | [] => (b, h)
  | (key, val) :: rest =>
      let '(b', h', _) := Push h b key val in pushes h' b' rest
  end.

(** The string of the last call in [ops] that pushed a string under
    [key], and [cur] when there is none. *)
Fixpoint lastPushed (key : string) (ops : list (string * value))
    (cur : string) : string :=
  match ops with
  | [] => cur
  | (k, val) :: rest =>
      lastPushed key rest
        (match val with
         | VString s => if String.eqb k key then s else cur
         | _ => cur
         end)
  end.

(** The snapshot paths come in pairs: both empty or both set. *)
Definition paths_paired (b : Blob) : Prop :=
  SnapshotId b = EmptyString <-> SnapshotField b = EmptyString.

(** *** The push event of the scenarios *)

Definition quoted (s : string) : string :=
  String json.dquote s +:+ String json.dquote EmptyString.

(** The payload [{"repository":{"id":42},"ref":"refs/heads/main"}]. *)
Definition push_event_payload : string :=
  "{" +:+ quoted "repository" +:+ ":{" +:+ quoted "id" +:+ ":42},"
      +:+ quoted "ref" +:+ ":" +:+ quoted "refs/heads/main" +:+ "}".

(** The store after decoding that payload. *)
Definition push_event_heap : heap :=
  [ <["repository" := VMap 1]> (<["ref" := VString "refs/heads/main"]> ∅);
    <["id" := VNumber "42"]> ∅ ].

(** The Blob of a push event received at [now], once its two snapshot
    paths are set. *)
Definition push_event (now : Time) : Blob :=
  {| Data := VMap 0; Id := "1"; SnapshotId := "id";
     SnapshotField := "repository"; Timestamp := now;
     Type_ := "push_event" |}.

(** *** Notions for the properties of whole call sequences *)


(** Some call in [ops] pushed an ordinary key whose first segment is
    [attr]. *)
Definition pushed_attr (attr : string) (ops : list (string * value)) : bool :=
  existsb (fun op => negb (strings.HasPrefix (fst op) "_")
                     && String.eqb (hd EmptyString (strings.Split (fst op) "."))
                          attr) ops.

(** The string has a dot in it. *)
Fixpoint contains_dot (s : string) : bool :=
  match s with
  | EmptyString => false
  | String c rest => Ascii.eqb c "." || contains_dot rest
  end.

(** A value that is neither an array nor an object. *)
Definition is_scalar (v : value) : bool :=
  match v with
  | VSlice _ | VMap _ => false
  | _ => true
  end.

(** The open objects of the scanner were all allocated at [base] or
    after. *)
Definition stack_above (base : nat) (ps : list json.frame) : Prop :=
  Forall (fun f => match f with
                   | json.FObject m _ => base <= m
                   | json.FArray _ => True
                   end) ps.

(** The object a state carries, if any, was allocated at [base] or
    after. *)
Definition state_above (base : nat) (st : json.state) : Prop :=
  match st with
  | json.stateEndTop (VMap l) => base <= l
  | json.stateWord _ (VMap _) => False
  | _ => True
  end.

(** While it decodes in a store that began as [h0], the scanner keeps
    [h0] as it was and works on objects of its own. *)
Definition scanner_ext (h0 : heap) (s : json.scanner) : Prop :=
  (exists ext, json.store s = h0 ++ ext)
  /\ stack_above (length h0) (json.parseState s)
  /\ state_above (length h0) (json.step s).

(** The pushes of a producer that files its data under
    [repository.owner] and names that dotted path as snapshot field. *)
Definition dotted_field_ops : list (string * value) :=
  [("repository.owner.id", VInt 7);
   (MetadataSnapshotField, VString "repository.owner");
   (MetadataSnapshotId, VString "id")].

(** *** Notions for the termination of the print *)

(** The objects a value mentions, directly or inside its arrays. *)
Fixpoint refs (v : value) : list loc :=
  match v with
  | VMap l => [l]
  | VSlice elems => flat_map refs elems
  | _ => []
  end.

(** Every object mentioned by a member of an object, at any depth of
    arrays, was allocated after that object. *)
Definition deep_ordered (h : heap) : Prop :=
  forall l m k v l',
    h !! l = Some m -> m !! k = Some v -> In l' (refs v) -> l < l' < length h.

(** The objects [v] mentions lie in the range from [lo] up to [hi]. *)
Definition refs_within (lo hi : nat) (v : value) : Prop :=
  forall r, In r (refs v) -> lo <= r < hi.

(** The least address a value completed under the open containers [ps]
    may mention: one past the innermost open object. *)
Fixpoint floor (ps : list json.frame) : nat :=
  match ps with
  | [] => 0
  | json.FObject m _ :: _ => S m
  | json.FArray _ :: ps' => floor ps'
  end.

(** The open containers hold and are objects younger than the open
    object around them. *)
Fixpoint stack_deep (hi : nat) (ps : list json.frame) : Prop :=
  match ps with
  | [] => True
  | json.FObject m _ :: ps' => floor ps' <= m < hi /\ stack_deep hi ps'
  | json.FArray elems :: ps' =>
      Forall (refs_within (floor ps') hi) elems /\ stack_deep hi ps'
  end.

Definition state_deep (hi : nat) (st : json.state) : Prop :=
  match st with
  | json.stateEndTop v => refs_within 0 hi v
  | json.stateWord _ v => refs v = []
  | _ => True
  end.

Definition deep_inv (s : json.scanner) : Prop :=
  deep_ordered (json.store s)
  /\ stack_deep (length (json.store s)) (json.parseState s)
  /\ state_deep (length (json.store s)) (json.step s).

(** * Properties *)

(** ** The library functions on small inputs *)

Example Split_dotted :
  strings.Split "a.b..c" "." = ["a"; "b"; EmptyString; "c"].
Proof. reflexivity. Qed.

Example Split_no_separator : strings.Split "ref" "." = ["ref"].
Proof. reflexivity. Qed.

Example Split_empty : strings.Split EmptyString "." = [EmptyString].
Proof. reflexivity. Qed.

Example HasPrefix_reserved :
  strings.HasPrefix "_type" "_" = true /\ strings.HasPrefix "a_b" "_" = false
  /\ strings.HasPrefix EmptyString "_" = false.
Proof. repeat split. Qed.

Example Sprint_scalars :
  fmt.Sprint 0 [] VNil = Some "<nil>"
  /\ fmt.Sprint 0 [] (VBool true) = Some "true"
  /\ fmt.Sprint 0 [] (VNumber "4.20") = Some "4.20"
  /\ fmt.Sprint 0 [] (VInt (-17)) = Some "-17".
Proof. repeat split. Qed.

Example Sprint_document :
  fmt.Sprint 2 push_event_heap (VMap 0)
  = Some "map[ref:refs/heads/main repository:map[id:42]]".
Proof. vm_compute. reflexivity. Qed.

Example Sprint_needs_fuel : fmt.Sprint 1 push_event_heap (VMap 0) = None.
Proof. vm_compute. reflexivity. Qed.

Example NewJson_array :
  NewJson [] "[1, -2.5e+3, true, null, [], {}]"
  = inl (VSlice [VNumber "1"; VNumber "-2.5e+3"; VBool true; VNil;
                 VSlice []; VMap 0], [∅]).
Proof. vm_compute. reflexivity. Qed.

Example NewJson_no_input :
  NewJson [] EmptyString = inr EOF /\ NewJson [] "  " = inr EOF.
Proof. split; reflexivity. Qed.

Example NewJson_truncated :
  NewJson [] "[1, 2" = inr ErrUnexpectedEOF
  /\ NewJson [] "tru" = inr ErrUnexpectedEOF.
Proof. split; reflexivity. Qed.

Example NewJson_syntax :
  NewJson [] "[1,]" = inr (SyntaxError "]")
  /\ NewJson [] "{not json" = inr (SyntaxError "n").
Proof. split; reflexivity. Qed.

(** The decoder reads the first value of a stream and stops there. *)
Example NewJson_first_value :
  NewJson [] "12 34" = inl (VNumber "12", [])
  /\ NewJson [] "[] {}" = inl (VSlice [], []).
Proof. split; reflexivity. Qed.

Lemma Split_cons (s : string) (sep : ascii) :
  exists p rest, strings.Split s sep = p :: rest.
Proof.
  destruct s as [| c s]; simpl; [eauto |].
  destruct (Ascii.eqb c sep); [eauto |].
  destruct (strings.Split s sep); eauto.
Qed.

(** ** The metadata table *)

Lemma metaFields_lookup (key : string) :
  metaFields !! key =
    if decide (key = MetadataType) then Some FType
    else if decide (key = MetadataSnapshotId) then Some FSnapshotId
    else if decide (key = MetadataSnapshotField) then Some FSnapshotField
    else None.
Proof.
  unfold metaFields.
  repeat (rewrite lookup_insert; case_decide; subst;
          [ repeat case_decide; congruence | ]).
  rewrite lookup_empty. repeat case_decide; congruence.
Qed.

Lemma metaFields_unknown (key : string) :
  key <> MetadataType -> key <> MetadataSnapshotId ->
  key <> MetadataSnapshotField -> metaFields !! key = None.
Proof.
  intros H1 H2 H3. rewrite metaFields_lookup.
  repeat case_decide; congruence.
Qed.

Lemma Push_reserved (h : heap) (b : Blob) (key : string) (val : value) :
  strings.HasPrefix key "_" = true ->
  Push h b key val =
    (fst (pushSpecialAttribute b key val), h,
     snd (pushSpecialAttribute b key val)).
Proof.
  intros Hp. unfold Push. rewrite Hp.
  destruct (pushSpecialAttribute b key val); reflexivity.
Qed.

Lemma assign_same_data (b : Blob) (f : metaField) (s : string) :
  Data (assign b f s) = Data b.
Proof. destruct f; reflexivity. Qed.

(** ** Push on a reserved key *)

(** C2: a key with the reserved prefix that is none of the three metadata
    keys makes [Push] return the "invalid metadata field" error, and
    neither the Blob (all six fields) nor the store is changed. *)
Theorem C2_unknown_metadata_key (h : heap) (b : Blob) (key : string)
    (val : value) :
  strings.HasPrefix key "_" = true ->
  key <> MetadataType -> key <> MetadataSnapshotId ->
  key <> MetadataSnapshotField ->
  Push h b key val = (b, h, Some (InvalidMetadataField key)).
Proof.
  intros Hp H1 H2 H3. rewrite Push_reserved by exact Hp.
  unfold pushSpecialAttribute.
  rewrite (metaFields_unknown key H1 H2 H3). reflexivity.
Qed.

Lemma C2_witness :
  Push [] (NewBlobFromJson 0%Z "issues" "7" VNil) "_unknown" (VString "x")
  = (NewBlobFromJson 0%Z "issues" "7" VNil, [],
     Some (InvalidMetadataField "_unknown")).
Proof.
  apply C2_unknown_metadata_key; [reflexivity | discriminate ..].
Defined.



(** C5: each of the three metadata keys pushed with a string succeeds and
    overwrites its own field with that string; the document value, the
    store and the other fields stay as they were. *)
Theorem C5_metadata_push_sets_field (h : heap) (b : Blob) (s : string) :
  Push h b MetadataType (VString s)
    = (mkBlob (Data b) (Id b) (SnapshotId b) (SnapshotField b) (Timestamp b) s,
       h, None)
  /\ Push h b MetadataSnapshotId (VString s)
    = (mkBlob (Data b) (Id b) s (SnapshotField b) (Timestamp b) (Type_ b),
       h, None)
  /\ Push h b MetadataSnapshotField (VString s)
    = (mkBlob (Data b) (Id b) (SnapshotId b) s (Timestamp b) (Type_ b),
       h, None).
Proof. repeat split. Qed.

(** ** Snapshot *)

(** C6: when the snapshot id path or the snapshot field path is empty,
    [Snapshot] returns [nil], with any fuel. *)
Theorem C6_snapshot_nil_when_path_empty (fuel : nat) (h : heap) (b : Blob) :
  SnapshotId b = EmptyString \/ SnapshotField b = EmptyString ->
  Snapshot fuel h b = Some None.
Proof.
  intros [H | H]; unfold Snapshot; rewrite H; simpl.
  - reflexivity.
  - rewrite orb_true_r. reflexivity.
Qed.

Lemma C6_witness :
  Snapshot 0 [] (NewBlobFromJson 0%Z "issues" "7" VNil) = Some None.
Proof.
  apply C6_snapshot_nil_when_path_empty. left. reflexivity.
Defined.

Lemma Snapshot_nonempty (fuel : nat) (h : heap) (b : Blob) :
  SnapshotId b <> EmptyString -> SnapshotField b <> EmptyString ->
  Snapshot fuel h b =
    match fmt.Sprint fuel h
            (simplejson.GetPath h
               (simplejson.Get h (Data b) (SnapshotField b))
               (strings.Split (SnapshotId b) ".")) with
    | Some snapshotId =>
        Some (Some (mkBlob (simplejson.Get h (Data b) (SnapshotField b))
                      snapshotId EmptyString EmptyString
                      (Timestamp b) (Type_ b)))
    | None => None
    end.
Proof.
  intros Hi Hf. unfold Snapshot.
  apply String.eqb_neq in Hi. apply String.eqb_neq in Hf.
  rewrite Hi, Hf. reflexivity.
Qed.

Lemma GetPath_nil (h : heap) (branch : list string) :
  simplejson.GetPath h VNil branch = VNil.
Proof. induction branch as [| p rest IH]; [reflexivity | exact IH]. Qed.

(** [GetPath] is [resolve] with [nil] for "no such member". *)
Lemma GetPath_resolve (h : heap) (branch : list string) :
  forall j, simplejson.GetPath h j branch = default VNil (resolve h j branch).
Proof.
  induction branch as [| p rest IH]; intros j; [reflexivity |].
  simpl. unfold simplejson.Get, simplejson.CheckGet.
  destruct (simplejson.Map h j) as [m |]; [| apply GetPath_nil].
  destruct (m !! p) as [v |]; [apply IH | apply GetPath_nil].
Qed.

(** A member that is missing resolves nothing. *)
Lemma resolve_missing_member (h : heap) (j : simplejson.Json)
    (field id : string) :
  simplejson.CheckGet h j field = None ->
  resolve h (simplejson.Get h j field) (strings.Split id ".") = None.
Proof.
  intros Hc. unfold simplejson.Get. unfold simplejson.CheckGet in Hc.
  destruct (Split_cons id ".") as (p & rest & ->).
  destruct (simplejson.Map h j) as [m |]; [rewrite Hc |]; reflexivity.
Qed.

(** C10: with both snapshot paths set, when the id path does not resolve
    inside the sub-document taken at the field path, or that sub-document
    is itself missing, [Snapshot] still returns a Blob, and its id is the
    five characters [<nil>]. *)
Theorem C10_snapshot_id_of_missing_value (fuel : nat) (h : heap) (b : Blob) :
  SnapshotId b <> EmptyString -> SnapshotField b <> EmptyString ->
  resolve h (simplejson.Get h (Data b) (SnapshotField b))
    (strings.Split (SnapshotId b) ".") = None
  \/ simplejson.CheckGet h (Data b) (SnapshotField b) = None ->
  Snapshot fuel h b =
    Some (Some (mkBlob (simplejson.Get h (Data b) (SnapshotField b))
                  "<nil>" EmptyString EmptyString (Timestamp b) (Type_ b)))
  /\ String.length "<nil>" = 5.
Proof.
  intros Hi Hf Hmiss. split; [| reflexivity].
  assert (Hres : resolve h (simplejson.Get h (Data b) (SnapshotField b))
                   (strings.Split (SnapshotId b) ".") = None).
  { destruct Hmiss as [Hres | Hc]; [exact Hres |].
    apply resolve_missing_member, Hc. }
  rewrite Snapshot_nonempty by assumption.
  rewrite GetPath_resolve, Hres. destruct fuel; reflexivity.
Qed.

Lemma C10_witness :
  Snapshot 0 push_event_heap
    (mkBlob (VMap 0) "1" "owner.login" "repository" 0%Z "push_event")
  = Some (Some (mkBlob (VMap 1) "<nil>" EmptyString EmptyString 0%Z
                  "push_event"))
  /\ String.length "<nil>" = 5.
Proof.
  apply (C10_snapshot_id_of_missing_value 0 push_event_heap
           (mkBlob (VMap 0) "1" "owner.login" "repository" 0%Z "push_event"));
    [discriminate | discriminate | left; reflexivity].
Defined.

(** ** The two snapshot paths *)

Lemma not_reserved_ne (key k : string) :
  strings.HasPrefix key "_" = false -> strings.HasPrefix k "_" = true ->
  String.eqb key k = false.
Proof.
  intros Hf Ht. apply String.eqb_neq. intros ->. congruence.
Qed.

Lemma Push_SnapshotId (h : heap) (b : Blob) (k : string) (v : value) :
  SnapshotId (fst (fst (Push h b k v))) =
    match v with
    | VString s => if String.eqb k MetadataSnapshotId then s else SnapshotId b
    | _ => SnapshotId b
    end.
Proof.
  destruct (strings.HasPrefix k "_") eqn:Hp.
  - rewrite Push_reserved by exact Hp. simpl.
    unfold pushSpecialAttribute. rewrite metaFields_lookup.
    repeat case_decide; subst; destruct v; reflexivity || (simpl;
      destruct (String.eqb_spec k MetadataSnapshotId); congruence).
  - rewrite (not_reserved_ne k MetadataSnapshotId Hp eq_refl).
    unfold Push. rewrite Hp.
    destruct (simplejson.SetPath h (Data b) (strings.Split k ".") v).
    destruct v; reflexivity.
Qed.

Lemma Push_SnapshotField (h : heap) (b : Blob) (k : string) (v : value) :
  SnapshotField (fst (fst (Push h b k v))) =
    match v with
    | VString s =>
        if String.eqb k MetadataSnapshotField then s else SnapshotField b
    | _ => SnapshotField b
    end.
Proof.
  destruct (strings.HasPrefix k "_") eqn:Hp.
  - rewrite Push_reserved by exact Hp. simpl.
    unfold pushSpecialAttribute. rewrite metaFields_lookup.
    repeat case_decide; subst; destruct v; reflexivity || (simpl;
      destruct (String.eqb_spec k MetadataSnapshotField); congruence).
  - rewrite (not_reserved_ne k MetadataSnapshotField Hp eq_refl).
    unfold Push. rewrite Hp.
    destruct (simplejson.SetPath h (Data b) (strings.Split k ".") v).
    destruct v; reflexivity.
Qed.

Lemma pushes_snapshot_paths (ops : list (string * value)) :
  forall h b,
    SnapshotId (fst (pushes h b ops))
      = lastPushed MetadataSnapshotId ops (SnapshotId b)
    /\ SnapshotField (fst (pushes h b ops))
      = lastPushed MetadataSnapshotField ops (SnapshotField b).
Proof.
  induction ops as [| [k v] ops IH]; intros h b; [split; reflexivity |].
  simpl.
  pose proof (Push_SnapshotId h b k v) as Hi.
  pose proof (Push_SnapshotField h b k v) as Hf.
  destruct (Push h b k v) as [[b' h'] err]. simpl in Hi, Hf.
  destruct (IH h' b') as [IHi IHf]. rewrite IHi, IHf, Hi, Hf.
  split; reflexivity.
Qed.

(** C7, as the code has it: after any sequence of [Push] calls on a Blob
    just constructed, each snapshot path is the string last pushed under
    its own metadata key, and is empty when no string was pushed under
    it.  The two are set one at a time and nothing ties them together. *)
Theorem C7_snapshot_paths_follow_their_keys (now : Time) (event id : string)
    (json : simplejson.Json) (h : heap) (ops : list (string * value)) :
  let b := fst (pushes h (NewBlobFromJson now event id json) ops) in
  SnapshotId b = lastPushed MetadataSnapshotId ops EmptyString
  /\ SnapshotField b = lastPushed MetadataSnapshotField ops EmptyString.
Proof. apply pushes_snapshot_paths. Qed.

(** C7, as stated, fails: one [Push] of [_snapshot_id] on a new Blob
    leaves the id path set and the field path empty. *)
Lemma C7_counterexample :
  let b := fst (pushes (snd (NewBlob 0%Z "issues" "7" []))
                  (fst (NewBlob 0%Z "issues" "7" []))
                  [(MetadataSnapshotId, VString "id")]) in
  SnapshotId b = "id" /\ SnapshotField b = EmptyString /\ ~ paths_paired b.
Proof.
  cbv zeta. split; [reflexivity |]. split; [reflexivity |].
  intros [_ Hp]. specialize (Hp eq_refl). discriminate Hp.
Qed.

(** ** Construction from a payload *)

(** White space alone leaves the scanner where it started. *)
Lemma scan_spaces (h : heap) (bytes : list ascii) :
  forallb json.isSpace bytes = true ->
  fold_left json.scan bytes (json.mkScanner h [] json.stateBeginValue)
  = json.mkScanner h [] json.stateBeginValue.
Proof.
  induction bytes as [| c bytes IH]; intros Hsp; [reflexivity |].
  simpl in Hsp. apply andb_true_iff in Hsp as [Hc Hrest].
  simpl. unfold json.scan at 2. simpl. unfold json.beginValue. rewrite Hc.
  apply IH, Hrest.
Qed.



(** ** Printing the id *)

Lemma insert_sorted_Forall (P : string * value -> Prop) (e : string * value)
    (l : list (string * value)) :
  P e -> Forall P l -> Forall P (fmt.insert_sorted e l).
Proof.
  intros He Hl. induction Hl as [| e' l' He' Hl' IH]; simpl.
  - constructor; [exact He | constructor].
  - destruct (String.leb (fst e) (fst e')).
    + constructor; [exact He |]. constructor; assumption.
    + constructor; assumption.
Qed.

Lemma sort_keys_Forall (P : string * value -> Prop)
    (l : list (string * value)) :
  Forall P l -> Forall P (fmt.sort_keys l).
Proof.
  unfold fmt.sort_keys. induction 1 as [| e l He Hl IH]; simpl.
  - constructor.
  - apply insert_sorted_Forall; assumption.
Qed.

Lemma forallb_Forall {A : Type} (f : A -> bool) (l : list A) :
  forallb f l = true -> Forall (fun x => f x = true) l.
Proof.
  induction l as [| x l IH]; simpl; intros H; [constructor |].
  apply andb_true_iff in H as [Hx Hl]. constructor; auto.
Qed.

(** More fuel never changes a print that finished. *)
Lemma Sprint_mono (n : nat) (h : heap) :
  forall v s, fmt.Sprint n h v = Some s -> fmt.Sprint (S n) h v = Some s.
Proof.
  induction n as [| n IH]; intros v s.
  - destruct v; simpl; congruence.
  - destruct v; try (simpl; congruence).
    + change (fmt.Sprint (S n) h (VSlice elems)) with
        (match mapM (fmt.Sprint n h) elems with
         | Some parts => Some ("[" +:+ String.concat " " parts +:+ "]")
         | None => None
         end).
      change (fmt.Sprint (S (S n)) h (VSlice elems)) with
        (match mapM (fmt.Sprint (S n) h) elems with
         | Some parts => Some ("[" +:+ String.concat " " parts +:+ "]")
         | None => None
         end).
      destruct (mapM (fmt.Sprint n h) elems) as [parts |] eqn:Hm;
        [| discriminate].
      apply mapM_Some in Hm.
      rewrite (mapM_Some_2 (fmt.Sprint (S n) h) elems parts); [trivial |].
      eapply Forall2_impl; [exact Hm |]. intros x y. apply IH.
    + change (fmt.Sprint (S n) h (VMap l)) with
        (match h !! l with
         | Some m =>
             match mapM (fun e => match fmt.Sprint n h (snd e) with
                                  | Some t => Some (fst e +:+ ":" +:+ t)
                                  | None => None
                                  end)
                        (fmt.sort_keys (map_to_list m)) with
             | Some parts => Some ("map[" +:+ String.concat " " parts +:+ "]")
             | None => None
             end
         | None => None
         end).
      change (fmt.Sprint (S (S n)) h (VMap l)) with
        (match h !! l with
         | Some m =>
             match mapM (fun e => match fmt.Sprint (S n) h (snd e) with
                                  | Some t => Some (fst e +:+ ":" +:+ t)
                                  | None => None
                                  end)
                        (fmt.sort_keys (map_to_list m)) with
             | Some parts => Some ("map[" +:+ String.concat " " parts +:+ "]")
             | None => None
             end
         | None => None
         end).
      destruct (h !! l) as [m |]; [| discriminate].
      destruct (mapM _ (fmt.sort_keys (map_to_list m))) as [parts |] eqn:Hm;
        [| discriminate].
      apply mapM_Some in Hm.
      assert (Hm' : mapM (fun e => match fmt.Sprint (S n) h (snd e) with
                                   | Some t => Some (fst e +:+ ":" +:+ t)
                                   | None => None
                                   end)
                         (fmt.sort_keys (map_to_list m)) = Some parts).
      { apply mapM_Some_2. eapply Forall2_impl; [exact Hm |].
        intros x y. cbv beta.
        destruct (fmt.Sprint n h (snd x)) as [t |] eqn:Ht; [| discriminate].
        rewrite (IH _ _ Ht). trivial. }
      rewrite Hm'. trivial.
Qed.

Lemma Sprint_mono_le (n fuel : nat) (h : heap) (v : value) (s : string) :
  n <= fuel -> fmt.Sprint n h v = Some s -> fmt.Sprint fuel h v = Some s.
Proof.
  induction 1 as [| fuel Hle IH]; intros Hs; [exact Hs |].
  apply Sprint_mono. auto.
Qed.

(** A value that nests at most [n] deep is printed with fuel [n]. *)
Lemma nesting_Sprint (n : nat) (h : heap) :
  forall v, nesting n h v = true -> is_Some (fmt.Sprint n h v).
Proof.
  induction n as [| n IH]; intros v Hv.
  - destruct v; simpl in *; eauto; discriminate.
  - destruct v; try (simpl; eauto; fail).
    + simpl in Hv. apply forallb_Forall in Hv.
      assert (Hm : is_Some (mapM (fmt.Sprint n h) elems)).
      { apply mapM_is_Some. eapply Forall_impl; [exact Hv |].
        intros x Hx. apply IH, Hx. }
      destruct Hm as [parts Hm]. simpl. rewrite Hm. eauto.
    + simpl in Hv. simpl. destruct (h !! l) as [m |]; [| discriminate].
      apply forallb_Forall in Hv.
      eapply (sort_keys_Forall (fun e => nesting n h (snd e) = true)) in Hv.
      match goal with
      | |- is_Some (match ?x with _ => _ end) =>
          assert (Hm : is_Some x); [| destruct Hm as [parts Hm];
                                       rewrite Hm; eauto]
      end.
      apply mapM_is_Some. eapply Forall_impl; [exact Hv |].
      intros x Hx. simpl. destruct (IH _ Hx) as [t Ht]. rewrite Ht. eauto.
Qed.



(** ** The store under [SetPath] *)

Lemma map_store_length (h : heap) (l : loc) (k : string) (v : value) :
  length (map_store h l k v) = length h.
Proof.
  unfold map_store. destruct (h !! l); [apply length_insert | reflexivity].
Qed.

Lemma map_store_eq (h : heap) (l : loc) (k : string) (v : value)
    (m : gmap string value) :
  h !! l = Some m -> map_store h l k v !! l = Some (<[k := v]> m).
Proof.
  intros Hm. unfold map_store. rewrite Hm.
  apply list_lookup_insert_eq. eapply lookup_lt_Some, Hm.
Qed.

Lemma map_store_ne (h : heap) (l l' : loc) (k : string) (v : value) :
  l <> l' -> map_store h l k v !! l' = h !! l'.
Proof.
  intros Hne. unfold map_store.
  destruct (h !! l); [apply list_lookup_insert_ne, Hne | reflexivity].
Qed.

Lemma tree_below_allocated (h : heap) (root : loc) :
  tree_below h root -> exists m, h !! root = Some m.
Proof.
  intros Ht. apply lookup_lt_is_Some. apply Ht. apply rtc_refl.
Qed.

Lemma tree_below_child (h : heap) (curr n : loc) :
  tree_below h curr -> edge h curr n ->
  tree_below h n /\ ~ rtc (edge h) n curr.
Proof.
  intros Ht He. split.
  - intros l Hl. apply Ht. eapply rtc_l; eassumption.
  - intros Hback. destruct (Ht curr (rtc_refl _ _)) as [_ Hcyc].
    apply Hcyc. eapply tc_rtc_r; [apply tc_once, He | exact Hback].
Qed.

(** An object without members has nothing below it. *)
Lemma empty_object_no_edge (h : heap) (n l : loc) :
  h !! n = Some ∅ -> ~ edge h n l.
Proof.
  intros Hn (m & k & Hm & Hk). rewrite Hn in Hm. injection Hm as <-.
  rewrite lookup_empty in Hk. discriminate.
Qed.

Lemma empty_object_below (h : heap) (n l : loc) :
  h !! n = Some ∅ -> rtc (edge h) n l -> l = n.
Proof.
  intros Hn Hr. apply rtc_inv in Hr as [-> | (y & He & _)]; [reflexivity |].
  exfalso. eapply empty_object_no_edge; eassumption.
Qed.

Lemma empty_object_tree (h : heap) (n : loc) :
  h !! n = Some ∅ -> tree_below h n.
Proof.
  intros Hn l Hl. apply (empty_object_below h n l Hn) in Hl as ->. split.
  - eapply lookup_lt_Some, Hn.
  - intros Hc. inversion Hc as [x y He | x y z He _]; subst;
      eapply empty_object_no_edge; eassumption.
Qed.

(** What one turn of the loop establishes. *)
Lemma descend_spec (h h1 : heap) (curr n : loc) (b : string)
    (m : gmap string value) :
  tree_below h curr -> h !! curr = Some m ->
  simplejson.descend h curr b = (n, h1) ->
  tree_below h1 n
  /\ h1 !! curr = Some (<[b := VMap n]> m)
  /\ n <> curr
  /\ length h <= length h1
  /\ (forall l, l < length h -> l <> curr -> h1 !! l = h !! l)
  /\ (forall l, l < length h -> ~ rtc (edge h) curr l ->
        ~ rtc (edge h1) n l)
  /\ ~ rtc (edge h1) n curr.
Proof.
  intros Ht Hm Hd. unfold simplejson.descend in Hd. simpl in Hd.
  rewrite Hm in Hd.
  assert (Hlt : curr < length h) by (eapply lookup_lt_Some, Hm).
  assert (Hfresh :
    (length h, map_store (h ++ [∅]) curr b (VMap (length h))) = (n, h1) ->
    tree_below h1 n
    /\ h1 !! curr = Some (<[b := VMap n]> m)
    /\ n <> curr
    /\ length h <= length h1
    /\ (forall l, l < length h -> l <> curr -> h1 !! l = h !! l)
    /\ (forall l, l < length h -> ~ rtc (edge h) curr l ->
          ~ rtc (edge h1) n l)
    /\ ~ rtc (edge h1) n curr).
  { intros [= <- <-].
    assert (Hn : map_store (h ++ [∅]) curr b (VMap (length h)) !! length h
                 = Some ∅).
    { rewrite map_store_ne by lia.
      rewrite lookup_app_r by lia. rewrite Nat.sub_diag. reflexivity. }
    split_and!.
    - apply empty_object_tree, Hn.
    - apply map_store_eq. rewrite lookup_app_l by exact Hlt. exact Hm.
    - lia.
    - rewrite map_store_length, length_app. simpl. lia.
    - intros l Hl Hne. rewrite map_store_ne by congruence.
      apply lookup_app_l, Hl.
    - intros l Hl _ Hr. apply (empty_object_below _ _ _ Hn) in Hr. lia.
    - intros Hr. apply (empty_object_below _ _ _ Hn) in Hr. lia. }
  destruct (m !! b) as [v |] eqn:Hb; [| apply Hfresh, Hd].
  destruct v; try (apply Hfresh, Hd).
  injection Hd as <- <-.
  assert (He : edge h curr l) by (exists m, b; split; assumption).
  destruct (tree_below_child h curr l Ht He) as [Htl Hback].
  split_and!.
  - exact Htl.
  - rewrite insert_id by exact Hb. exact Hm.
  - intros ->. apply Hback, rtc_refl.
  - lia.
  - reflexivity.
  - intros l' Hl' Hno Hr. apply Hno. eapply rtc_l; eassumption.
  - exact Hback.
Qed.

(** The loop writes only to the objects below [curr] and to new ones. *)
Lemma setPathFrom_frame (branch : list string) (val : value) :
  forall h curr l,
    tree_below h curr -> l < length h -> ~ rtc (edge h) curr l ->
    simplejson.setPathFrom h curr branch val !! l = h !! l.
Proof.
  induction branch as [| b rest IH]; intros h curr l Ht Hl Hno;
    [reflexivity |].
  assert (Hne : curr <> l) by (intros ->; apply Hno, rtc_refl).
  destruct rest as [| b' rest].
  - simpl. apply map_store_ne, Hne.
  - change (simplejson.setPathFrom h curr (b :: b' :: rest) val) with
      (let '(n, h1) := simplejson.descend h curr b in
       simplejson.setPathFrom h1 n (b' :: rest) val).
    destruct (tree_below_allocated h curr Ht) as [m Hm].
    destruct (simplejson.descend h curr b) as [n h1] eqn:Hd.
    destruct (descend_spec h h1 curr n b m Ht Hm Hd)
      as (Ht1 & _ & _ & Hlen & Hsame & Hnot & _).
    rewrite IH; [apply Hsame; [exact Hl | congruence] | exact Ht1 | lia |].
    apply Hnot; assumption.
Qed.

(** After the loop, the object at [curr] differs from before in its
    member [b] only, and the path leads from it to [val]. *)
Lemma setPathFrom_root (branch : list string) (val : value) :
  forall b h curr m,
    tree_below h curr -> h !! curr = Some m ->
    let h' := simplejson.setPathFrom h curr (b :: branch) val in
    (exists x, h' !! curr = Some (<[b := x]> m))
    /\ simplejson.GetPath h' (VMap curr) (b :: branch) = val.
Proof.
  induction branch as [| b' rest IH]; intros b h curr m Ht Hm h'.
  - subst h'. simpl.
    pose proof (map_store_eq h curr b val m Hm) as Hs. split.
    + exists val. exact Hs.
    + unfold simplejson.Get. simpl. rewrite Hs, lookup_insert_eq.
      reflexivity.
  - subst h'.
    change (simplejson.setPathFrom h curr (b :: b' :: rest) val) with
      (let '(n, h1) := simplejson.descend h curr b in
       simplejson.setPathFrom h1 n (b' :: rest) val).
    destruct (simplejson.descend h curr b) as [n h1] eqn:Hd.
    destruct (descend_spec h h1 curr n b m Ht Hm Hd)
      as (Ht1 & Hcurr & Hne & Hlen & _ & _ & Hback).
    destruct (tree_below_allocated h1 n Ht1) as [mn Hmn].
    destruct (IH b' h1 n mn Ht1 Hmn) as [_ Hpath].
    assert (Hroot : simplejson.setPathFrom h1 n (b' :: rest) val !! curr
                    = Some (<[b := VMap n]> m)).
    { rewrite setPathFrom_frame; [exact Hcurr | exact Ht1 | | exact Hback].
      eapply lookup_lt_Some, Hcurr. }
    split; [eexists; exact Hroot |].
    cbv zeta in Hpath.
    generalize dependent (simplejson.setPathFrom h1 n (b' :: rest) val).
    intros hh Hpath Hroot.
    change (simplejson.GetPath hh (VMap curr) (b :: b' :: rest)) with
      (simplejson.GetPath hh (simplejson.Get hh (VMap curr) b) (b' :: rest)).
    unfold simplejson.Get at 1. unfold simplejson.Map.
    rewrite Hroot, lookup_insert_eq. exact Hpath.
Qed.

Lemma SetPath_object (h : heap) (l : loc) (m : gmap string value)
    (p : string) (rest : list string) (val : value) :
  h !! l = Some m ->
  simplejson.SetPath h (VMap l) (p :: rest) val
    = (VMap l, simplejson.setPathFrom h l (p :: rest) val).
Proof.
  intros Hm. unfold simplejson.SetPath, simplejson.Map. rewrite Hm.
  reflexivity.
Qed.

Lemma SetPath_not_object (h : heap) (j : simplejson.Json) (p : string)
    (rest : list string) (val : value) :
  simplejson.Map h j = None ->
  simplejson.SetPath h j (p :: rest) val
    = (VMap (length h),
       simplejson.setPathFrom (h ++ [∅]) (length h) (p :: rest) val).
Proof.
  intros Hm. unfold simplejson.SetPath. rewrite Hm. reflexivity.
Qed.

(** [SetPath] on a non-empty branch: the path then leads to [val], the
    first segment is a member of the document, and the other members
    are the ones it had. *)
Lemma SetPath_spec (h : heap) (j : simplejson.Json) (b : string)
    (branch : list string) (val : value) :
  doc_wf h j ->
  forall j' h', simplejson.SetPath h j (b :: branch) val = (j', h') ->
    simplejson.GetPath h' j' (b :: branch) = val
    /\ is_Some (simplejson.CheckGet h' j' b)
    /\ (forall attr, attr <> b ->
          simplejson.CheckGet h' j' attr = simplejson.CheckGet h j attr).
Proof.
  intros Hwf j' h' Hs. unfold simplejson.SetPath in Hs.
  assert (Hgen : forall h0 curr m,
            tree_below h0 curr -> h0 !! curr = Some m ->
            (forall attr, m !! attr = simplejson.CheckGet h j attr) ->
            VMap curr = j' ->
            simplejson.setPathFrom h0 curr (b :: branch) val = h' ->
            simplejson.GetPath h' j' (b :: branch) = val
            /\ is_Some (simplejson.CheckGet h' j' b)
            /\ (forall attr, attr <> b ->
                  simplejson.CheckGet h' j' attr
                    = simplejson.CheckGet h j attr)).
  { intros h0 curr m Ht Hm Hattr <- Hh.
    destruct (setPathFrom_root branch val b h0 curr m Ht Hm)
      as [[x Hroot] Hpath].
    cbv zeta in Hpath. rewrite Hh in Hroot, Hpath.
    split; [exact Hpath |]. unfold simplejson.CheckGet at 1 2.
    unfold simplejson.Map at 1 2. rewrite Hroot. split.
    - rewrite lookup_insert_eq. eauto.
    - intros attr Hne. rewrite lookup_insert_ne by congruence. apply Hattr. }
  destruct (simplejson.Map h j) as [m |] eqn:Hmap.
  - destruct j; try discriminate. simpl in Hmap.
    injection Hs as Hj Hh.
    apply (Hgen h l m Hwf Hmap); [| exact Hj | exact Hh].
    intros attr. unfold simplejson.CheckGet. simpl. rewrite Hmap. reflexivity.
  - unfold simplejson.New, make_map in Hs.
    assert (Hn : (h ++ [∅]) !! length h = Some (∅ : gmap string value)).
    { rewrite lookup_app_r by lia. rewrite Nat.sub_diag. reflexivity. }
    injection Hs as Hj Hh.
    apply (Hgen (h ++ [∅]) (length h) ∅ (empty_object_tree _ _ Hn) Hn);
      [| exact Hj | exact Hh].
    intros attr. unfold simplejson.CheckGet. rewrite Hmap. apply lookup_empty.
Qed.


(** ** Push on an ordinary key *)


(** The decoded push event is a tree: its only link goes from the
    document to the repository object. *)
Lemma push_event_heap_tree : doc_wf push_event_heap (VMap 0).
Proof.
  assert (H0 : forall y, edge push_event_heap 0 y -> y = 1).
  { intros y (m & k & Hm & Hk). injection Hm as <-.
    rewrite lookup_insert in Hk. case_decide; [congruence |].
    rewrite lookup_insert in Hk. case_decide; [discriminate |].
    rewrite lookup_empty in Hk. discriminate. }
  assert (H1 : forall y, ~ edge push_event_heap 1 y).
  { intros y (m & k & Hm & Hk). injection Hm as <-.
    rewrite lookup_insert in Hk. case_decide; [discriminate |].
    rewrite lookup_empty in Hk. discriminate. }
  assert (Hbelow1 : forall y, rtc (edge push_event_heap) 1 y -> y = 1).
  { intros y Hr. apply rtc_inv in Hr as [-> | (z & He & _)]; [reflexivity |].
    destruct (H1 z He). }
  assert (Hbelow0 : forall y, rtc (edge push_event_heap) 0 y -> y = 0 \/ y = 1).
  { intros y Hr. apply rtc_inv in Hr as [-> | (z & He & Hr)]; [left; reflexivity |].
    apply H0 in He as ->. right. apply Hbelow1, Hr. }
  intros l Hl. apply Hbelow0 in Hl. split.
  - simpl. destruct Hl as [-> | ->]; lia.
  - intros Hc. destruct Hl as [-> | ->].
    + inversion Hc as [x y He | x y z He Ht]; subst.
      * apply H0 in He. discriminate.
      * apply H0 in He as ->. apply tc_rtc, Hbelow1 in Ht. discriminate.
    + inversion Hc as [x y He | x y z He Ht]; subst; destruct (H1 _ He).
Qed.


(** ** A snapshot and the Blob it was taken from *)

Lemma Snapshot_Some (fuel : nat) (h : heap) (b s : Blob) :
  Snapshot fuel h b = Some (Some s) ->
  Data s = simplejson.Get h (Data b) (SnapshotField b)
  /\ SnapshotField b <> EmptyString.
Proof.
  unfold Snapshot.
  destruct (String.eqb_spec (SnapshotField b) EmptyString) as [He | Hne].
  - rewrite orb_true_r. discriminate.
  - destruct (_ || _); [discriminate |].
    destruct (fmt.Sprint _ _ _); [| discriminate].
    intros [= <-]. split; [reflexivity | exact Hne].
Qed.

Lemma HasPrefix_app (s t : string) :
  s <> EmptyString -> strings.HasPrefix s "_" = false ->
  strings.HasPrefix (s +:+ t) "_" = false.
Proof.
  intros Hne Hp. destruct s as [| c s]; [congruence |].
  simpl in *. exact Hp.
Qed.

(** A key made of a dot-free name, a dot and a second key splits into
    the name followed by the segments of the second key. *)
Lemma Split_app (s key : string) :
  strings.Split s "." = [s] ->
  strings.Split (s +:+ "." +:+ key) "." = s :: strings.Split key ".".
Proof.
  induction s as [| c s IH]; intros Hs; [reflexivity |].
  simpl in Hs |- *. destruct (Ascii.eqb c "."); [discriminate |].
  destruct (strings.Split s ".") as [| piece pieces] eqn:Hsplit.
  - destruct (Split_cons s ".") as (p & r & Hc). congruence.
  - injection Hs as -> ->. rewrite IH by reflexivity. reflexivity.
Qed.

Lemma Snapshot_member_object (h : heap) (b s : Blob) (l : loc) :
  Data s = simplejson.Get h (Data b) (SnapshotField b) ->
  Data s = VMap l ->
  exists r m, Data b = VMap r /\ h !! r = Some m
              /\ m !! SnapshotField b = Some (VMap l).
Proof.
  intros Hdata Hl. rewrite Hl in Hdata. unfold simplejson.Get in Hdata.
  destruct (simplejson.Map h (Data b)) as [m |] eqn:Hmap; [| discriminate].
  destruct (m !! SnapshotField b) as [v |] eqn:Hfield; [| discriminate].
  subst v. destruct (Data b) as [| | | | | | r]; try discriminate.
  exists r, m. auto.
Qed.




(** ** Documents of the Blobs a program builds are well formed *)

Lemma ordered_tree_below (h : heap) (root : loc) :
  ordered h -> root < length h -> tree_below h root.
Proof.
  intros Ho Hroot l Hl. split.
  - induction Hl as [| x y z (m & k & Hm & Hk) _ IH]; [exact Hroot |].
    apply IH. eapply Ho; eassumption.
  - assert (Hup : forall x y, tc (edge h) x y -> x < y).
    { intros x y Ht. induction Ht as [x y (m & k & Hm & Hk)
                                     | x y z (m & k & Hm & Hk) _ IH].
      - eapply Ho; eassumption.
      - pose proof (Ho x m k y Hm Hk). lia. }
    intros Hc. apply Hup in Hc. lia.
Qed.

Lemma ordered_alloc (h : heap) : ordered h -> ordered (h ++ [∅]).
Proof.
  intros Ho l m k l' Hm Hk. rewrite length_app. simpl.
  destruct (decide (l < length h)) as [Hlt | Hge].
  - rewrite lookup_app_l in Hm by exact Hlt.
    pose proof (Ho l m k l' Hm Hk). lia.
  - rewrite lookup_app_r in Hm by lia.
    destruct (l - length h) as [| i]; simpl in Hm.
    + injection Hm as <-. rewrite lookup_empty in Hk. discriminate.
    + rewrite lookup_nil in Hm. discriminate.
Qed.

Lemma ordered_map_store (h : heap) (l : loc) (key : string) (val : value) :
  ordered h -> (forall l', val = VMap l' -> l < l' < length h) ->
  ordered (map_store h l key val).
Proof.
  intros Ho Hval x m k y Hm Hk. rewrite map_store_length.
  destruct (decide (x = l)) as [Heq | Hne]; [subst x |].
  - destruct (h !! l) as [ml |] eqn:Hl.
    + rewrite (map_store_eq h l key val ml Hl) in Hm. injection Hm as <-.
      rewrite lookup_insert in Hk. case_decide.
      * injection Hk as ->. apply Hval. reflexivity.
      * eapply Ho; eassumption.
    + unfold map_store in Hm. rewrite Hl in Hm. congruence.
  - rewrite map_store_ne in Hm by congruence. eapply Ho; eassumption.
Qed.

Lemma ordered_descend (h h1 : heap) (curr n : loc) (b : string) :
  ordered h -> curr < length h ->
  simplejson.descend h curr b = (n, h1) ->
  ordered h1 /\ n < length h1 /\ length h <= length h1.
Proof.
  intros Ho Hcurr Hd. unfold simplejson.descend, simplejson.Map in Hd.
  destruct (lookup_lt_is_Some_2 h curr Hcurr) as [m Hm]. rewrite Hm in Hd.
  assert (Hfresh :
    (length h, map_store (h ++ [∅]) curr b (VMap (length h))) = (n, h1) ->
    ordered h1 /\ n < length h1 /\ length h <= length h1).
  { intros Heq. apply pair_equal_spec in Heq as [<- <-].
    rewrite map_store_length, length_app. simpl. split_and!; try lia.
    apply ordered_map_store; [apply ordered_alloc, Ho |].
    intros l' [= <-]. rewrite length_app. simpl. lia. }
  destruct (m !! b) as [v |] eqn:Hb; [| apply Hfresh, Hd].
  destruct v; try (apply Hfresh, Hd).
  apply pair_equal_spec in Hd as [<- <-].
  pose proof (Ho curr m b l Hm Hb). split_and!; [exact Ho | lia | lia].
Qed.

Lemma ordered_setPathFrom (branch : list string) (val : value) :
  not_object val ->
  forall h curr, ordered h -> curr < length h ->
    ordered (simplejson.setPathFrom h curr branch val)
    /\ length h <= length (simplejson.setPathFrom h curr branch val).
Proof.
  intros Hval. induction branch as [| b rest IH]; intros h curr Ho Hcurr;
    [simpl; split; [exact Ho | lia] |].
  destruct rest as [| b' rest].
  - simpl. rewrite map_store_length. split; [| lia].
    apply ordered_map_store; [exact Ho |]. intros l' ->. destruct (Hval l' eq_refl).
  - change (simplejson.setPathFrom h curr (b :: b' :: rest) val) with
      (let '(n, h1) := simplejson.descend h curr b in
       simplejson.setPathFrom h1 n (b' :: rest) val).
    destruct (simplejson.descend h curr b) as [n h1] eqn:Hd.
    destruct (ordered_descend h h1 curr n b Ho Hcurr Hd) as (Ho1 & Hn & Hlen).
    destruct (IH h1 n Ho1 Hn) as [Ho' Hlen']. split; [exact Ho' | lia].
Qed.

(** [Push] of a value that is not an object keeps the store in
    allocation order and the document allocated. *)
Lemma Push_ordered (h : heap) (b : Blob) (key : string) (val : value) :
  not_object val -> ordered h ->
  (forall l, Data b = VMap l -> l < length h) ->
  ordered (snd (fst (Push h b key val)))
  /\ (forall l, Data (fst (fst (Push h b key val))) = VMap l ->
        l < length (snd (fst (Push h b key val)))).
Proof.
  intros Hval Ho Hdata. unfold Push.
  destruct (strings.HasPrefix key "_").
  - destruct (pushSpecialAttribute b key val) as [b' err] eqn:Hp. simpl.
    split; [exact Ho |]. unfold pushSpecialAttribute in Hp.
    destruct (metaFields !! key) as [f |];
      [destruct val | ]; apply pair_equal_spec in Hp as [<- _];
      try exact Hdata.
    rewrite assign_same_data. exact Hdata.
  - cbv zeta. destruct (Split_cons key ".") as (p & rest & ->).
    destruct (simplejson.Map h (Data b)) as [m |] eqn:Hmap.
    + destruct (Data b) as [| | | | | | r] eqn:Hroot; try discriminate.
      simpl in Hmap. rewrite (SetPath_object h r m p rest val Hmap). simpl.
      destruct (ordered_setPathFrom (p :: rest) val Hval h r Ho
                  (Hdata r eq_refl)) as [Ho' Hlen].
      split; [exact Ho' |]. intros l [= <-].
      pose proof (Hdata r eq_refl). simpl in Hlen. lia.
    + rewrite (SetPath_not_object h (Data b) p rest val Hmap). simpl.
      destruct (ordered_setPathFrom (p :: rest) val Hval (h ++ [∅])
                  (length h) (ordered_alloc h Ho)) as [Ho' Hlen].
      { rewrite length_app. simpl. lia. }
      split; [exact Ho' |]. intros l [= <-].
      rewrite length_app in Hlen. simpl in Hlen. lia.
Qed.

Lemma pushes_ordered (ops : list (string * value)) :
  Forall (fun op => not_object (snd op)) ops ->
  forall h b, ordered h -> (forall l, Data b = VMap l -> l < length h) ->
    ordered (snd (pushes h b ops))
    /\ (forall l, Data (fst (pushes h b ops)) = VMap l ->
          l < length (snd (pushes h b ops))).
Proof.
  induction 1 as [| [key val] ops Hval _ IH]; intros h b Ho Hdata;
    [split; assumption |].
  simpl. pose proof (Push_ordered h b key val Hval Ho Hdata) as [Ho' Hdata'].
  destruct (Push h b key val) as [[b' h'] err]. apply IH; assumption.
Qed.

Lemma stack_ok_mono (ps : list json.frame) :
  forall bound bound', stack_ok bound ps -> bound <= bound' ->
    stack_ok bound' ps.
Proof.
  induction ps as [| [m key | elems] ps IH]; intros bound bound' Hs Hle;
    simpl in *.
  - exact I.
  - destruct Hs as [Hm Hps]. split; [lia | exact Hps].
  - eapply IH; eassumption.
Qed.

Lemma inv_goto (s : json.scanner) (st : json.state) :
  scanner_inv s -> state_ok (length (json.store s)) st ->
  scanner_inv (json.goto s st).
Proof.
  intros (Ho & Hs & _) Hst. split_and!; [exact Ho | exact Hs | exact Hst].
Qed.

Lemma inv_fail (s : json.scanner) (c : ascii) :
  scanner_inv s -> scanner_inv (json.fail s c).
Proof. intros (Ho & Hs & _). split_and!; [exact Ho | exact Hs | exact I]. Qed.

Lemma inv_endValue (h : heap) (ps : list json.frame) (v : value) :
  ordered h -> stack_ok (length h) ps ->
  (forall l, v = VMap l -> l < length h /\ stack_ok l ps) ->
  scanner_inv (json.endValue h ps v).
Proof.
  intros Ho Hs Hv. destruct ps as [| [m [k |] | elems] ps]; simpl.
  - split_and!; [exact Ho | exact I |]. simpl.
    destruct v; try exact I. apply (Hv l eq_refl).
  - simpl in Hs. destruct Hs as [Hm Hps].
    split_and!; simpl; rewrite ?map_store_length; [| auto | exact I].
    apply ordered_map_store; [exact Ho |].
    intros l' ->. destruct (Hv l' eq_refl) as [Hl [Hml _]]. lia.
  - split_and!; [exact Ho | exact Hs | exact I].
  - split_and!; [exact Ho | exact Hs | exact I].
Qed.

Lemma inv_afterValue (s : json.scanner) (c : ascii) :
  scanner_inv s -> scanner_inv (json.afterValue s c).
Proof.
  intros Hinv. pose proof Hinv as (Ho & Hs & _). unfold json.afterValue.
  destruct (json.isSpace c); [exact Hinv |].
  destruct (json.parseState s) as [| [m [k |] | elems] ps] eqn:Hps.
  - apply inv_fail, Hinv.
  - destruct (Ascii.eqb c ":");
      [apply inv_goto; [exact Hinv | exact I] | apply inv_fail, Hinv].
  - destruct (Ascii.eqb c ",");
      [apply inv_goto; [exact Hinv | exact I] |].
    destruct (Ascii.eqb c "}"); [| apply inv_fail, Hinv].
    simpl in Hs. destruct Hs as [Hm Hbelow].
    apply inv_endValue; [exact Ho | |].
    + eapply stack_ok_mono; [exact Hbelow | lia].
    + intros l [= <-]. split; assumption.
  - destruct (Ascii.eqb c ",");
      [apply inv_goto; [exact Hinv | exact I] |].
    destruct (Ascii.eqb c "]"); [| apply inv_fail, Hinv].
    apply inv_endValue; [exact Ho | exact Hs | discriminate].
Qed.

Lemma inv_endString (s : json.scanner) (raw : list ascii) :
  scanner_inv s -> scanner_inv (json.endString s raw).
Proof.
  intros Hinv. pose proof Hinv as (Ho & Hs & _). unfold json.endString.
  destruct (json.parseState s) as [| [m [k |] | elems] ps] eqn:Hps;
    try (apply inv_endValue; [exact Ho | exact Hs | discriminate]).
  split_and!; [exact Ho | exact Hs | exact I].
Qed.

Lemma inv_endNumber (s : json.scanner) (lit : list ascii) (c : ascii) :
  scanner_inv s -> scanner_inv (json.endNumber s lit c).
Proof.
  intros Hinv. pose proof Hinv as (Ho & Hs & _). unfold json.endNumber.
  assert (Hend : scanner_inv
                   (json.endValue (json.store s) (json.parseState s)
                      (VNumber (string_of_list_ascii (rev lit)))))
    by (apply inv_endValue; [exact Ho | exact Hs | discriminate]).
  destruct (json.step _); try apply inv_afterValue; exact Hend.
Qed.

Lemma inv_beginString (s : json.scanner) (c : ascii) :
  scanner_inv s -> scanner_inv (json.beginString s c).
Proof.
  intros Hinv. unfold json.beginString.
  destruct (json.isSpace c); [exact Hinv |].
  destruct (Ascii.eqb c json.dquote);
    [apply inv_goto; [exact Hinv | exact I] | apply inv_fail, Hinv].
Qed.

Lemma inv_beginValue (s : json.scanner) (c : ascii) :
  scanner_inv s -> scanner_inv (json.beginValue s c).
Proof.
  intros Hinv. pose proof Hinv as (Ho & Hs & _). unfold json.beginValue.
  repeat match goal with
         | |- scanner_inv (if ?t then _ else _) => destruct t
         end;
    try (apply inv_goto; [exact Hinv | exact I]);
    try (apply inv_fail, Hinv).
  unfold make_map. split_and!; simpl.
  - apply ordered_alloc, Ho.
  - rewrite length_app. simpl. split; [lia | exact Hs].
  - exact I.
Qed.

Lemma inv_scan (s : json.scanner) (c : ascii) :
  scanner_inv s -> scanner_inv (json.scan s c).
Proof.
  intros Hinv. pose proof Hinv as (Ho & Hs & Hst). unfold json.scan.
  destruct (json.step s) eqn:Hstep;
    repeat match goal with
           | |- scanner_inv (if ?t then _ else _) => destruct t
           | |- scanner_inv (match ?l with [] => _ | _ :: _ => _ end) =>
               destruct l
           end;
    first [ exact Hinv
          | apply inv_goto; [exact Hinv | exact I]
          | apply inv_goto; [exact Hinv | exact Hst]
          | apply inv_fail, Hinv
          | apply inv_beginValue, Hinv
          | apply inv_beginString, Hinv
          | apply inv_afterValue, Hinv
          | apply inv_endString, Hinv
          | apply inv_endNumber, Hinv
          | apply inv_endValue; [exact Ho | exact Hs | ] ].
  intros l ->. destruct Hst.
Qed.

Lemma inv_fold (bytes : list ascii) :
  forall s, scanner_inv s -> scanner_inv (fold_left json.scan bytes s).
Proof.
  induction bytes as [| c bytes IH]; intros s Hinv; [exact Hinv |].
  simpl. apply IH, inv_scan, Hinv.
Qed.

(** The decoder keeps the store in allocation order, and the value it
    returns, when an object, is allocated. *)
Lemma NewJson_ordered (h h' : heap) (body : string) (d : value) :
  ordered h -> NewJson h body = inl (d, h') ->
  ordered h' /\ (forall l, d = VMap l -> l < length h').
Proof.
  intros Ho. unfold NewJson, json.Decode.
  pose proof (inv_fold (list_ascii_of_string body)
                (json.mkScanner h [] json.stateBeginValue)) as Hinv.
  destruct Hinv as (Ho' & _ & Hst); [split_and!; [exact Ho | exact I..] |].
  destruct (json.step _) eqn:Hstep; try discriminate;
    try (destruct (json.parseState _); [| discriminate];
         intros [= <- <-]; split; [exact Ho' | discriminate]).
  intros [= <- <-]. split; [exact Ho' |].
  intros l ->. exact Hst.
Qed.

(** Every Blob built from a payload or from nothing, in a store in
    allocation order, and then pushed values that are not objects, has a
    well-formed document. *)
Lemma pushes_well_formed (h : heap) (b : Blob) (ops : list (string * value)) :
  ordered h -> (forall l, Data b = VMap l -> l < length h) ->
  Forall (fun op => not_object (snd op)) ops ->
  doc_wf (snd (pushes h b ops)) (Data (fst (pushes h b ops))).
Proof.
  intros Ho Hdata Hops.
  destruct (pushes_ordered ops Hops h b Ho Hdata) as [Ho' Hdata'].
  unfold doc_wf. destruct (Data (fst (pushes h b ops))) eqn:Hd; try exact I.
  apply ordered_tree_below; [exact Ho' | apply Hdata'; reflexivity].
Qed.

Lemma NewBlobFromPayload_well_formed (now : Time) (event id : string)
    (h h' : heap) (payload : string) (b : Blob)
    (ops : list (string * value)) :
  ordered h -> NewBlobFromPayload now event id h payload = inl (b, h') ->
  Forall (fun op => not_object (snd op)) ops ->
  doc_wf (snd (pushes h' b ops)) (Data (fst (pushes h' b ops))).
Proof.
  intros Ho Hnew Hops. unfold NewBlobFromPayload in Hnew.
  destruct (NewJson h payload) as [[d h1] |] eqn:Hd; [| discriminate].
  injection Hnew as <- <-.
  destruct (NewJson_ordered h h1 payload d Ho Hd) as [Ho1 Hd1].
  apply pushes_well_formed; assumption.
Qed.

Lemma NewBlob_well_formed (now : Time) (event id : string) (h : heap)
    (ops : list (string * value)) :
  ordered h ->
  Forall (fun op => not_object (snd op)) ops ->
  let '(b, h') := NewBlob now event id h in
  doc_wf (snd (pushes h' b ops)) (Data (fst (pushes h' b ops))).
Proof.
  intros Ho Hops. unfold NewBlob, simplejson.New, make_map.
  apply pushes_well_formed; [apply ordered_alloc, Ho | | exact Hops].
  simpl. intros l [= <-]. rewrite length_app. simpl. lia.
Qed.

Lemma ordered_nil : ordered [].
Proof. intros l m k l' Hm. rewrite lookup_nil in Hm. discriminate. Qed.

(** * Further properties of [blob.go] *)

(** ** When [Push] fails *)



(** ** What no [Push] changes *)

Lemma Push_Id_Timestamp (h : heap) (b : Blob) (key : string) (val : value) :
  Id (fst (fst (Push h b key val))) = Id b
  /\ Timestamp (fst (fst (Push h b key val))) = Timestamp b.
Proof.
  destruct (strings.HasPrefix key "_") eqn:Hp.
  - rewrite Push_reserved by exact Hp. simpl. unfold pushSpecialAttribute.
    destruct (metaFields !! key) as [f |]; [| split; reflexivity].
    destruct val; try (split; reflexivity). destruct f; split; reflexivity.
  - unfold Push. rewrite Hp. cbv zeta.
    destruct (simplejson.SetPath h (Data b) (strings.Split key ".") val).
    split; reflexivity.
Qed.

Lemma Push_Type (h : heap) (b : Blob) (k : string) (v : value) :
  Type_ (fst (fst (Push h b k v))) =
    match v with
    | VString s => if String.eqb k MetadataType then s else Type_ b
    | _ => Type_ b
    end.
Proof.
  destruct (strings.HasPrefix k "_") eqn:Hp.
  - rewrite Push_reserved by exact Hp. simpl.
    unfold pushSpecialAttribute. rewrite metaFields_lookup.
    repeat case_decide; subst; destruct v; reflexivity || (simpl;
      destruct (String.eqb_spec k MetadataType); congruence).
  - rewrite (not_reserved_ne k MetadataType Hp eq_refl).
    unfold Push. rewrite Hp.
    destruct (simplejson.SetPath h (Data b) (strings.Split k ".") v).
    destruct v; reflexivity.
Qed.

Lemma pushes_identity (ops : list (string * value)) :
  forall h b,
    Id (fst (pushes h b ops)) = Id b
    /\ Timestamp (fst (pushes h b ops)) = Timestamp b
    /\ Type_ (fst (pushes h b ops)) = lastPushed MetadataType ops (Type_ b).
Proof.
  induction ops as [| [k v] ops IH]; intros h b; [repeat split |].
  simpl. pose proof (Push_Id_Timestamp h b k v) as [Hi Ht].
  pose proof (Push_Type h b k v) as Hty.
  destruct (Push h b k v) as [[b' h'] err]. simpl in Hi, Ht, Hty.
  destruct (IH h' b') as (IHi & IHt & IHty).
  rewrite IHi, IHt, IHty, Hi, Ht, Hty. repeat split.
Qed.

(** X2: after any sequence of [Push] calls on a Blob made by
    [NewBlobFromJson] (so by any constructor), the id and the timestamp
    are the constructor's, and the kind is the string last pushed under
    [_type], or the constructor's event when none was. *)
Theorem pushes_keep_identity (now : Time) (event id : string)
    (json : simplejson.Json) (h : heap) (ops : list (string * value)) :
  let b := fst (pushes h (NewBlobFromJson now event id json) ops) in
  Id b = id /\ Timestamp b = now
  /\ Type_ b = lastPushed MetadataType ops event.
Proof.
  apply (pushes_identity ops h (NewBlobFromJson now event id json)).
Qed.

(** ** Snapshots of snapshots *)

(** X3: the Blob [Snapshot] returns has no snapshot paths of its own, so
    [Snapshot] on it returns [nil], in any store and with any fuel. *)
Theorem Snapshot_of_snapshot_is_nil (fuel fuel' : nat) (h h' : heap)
    (b s : Blob) :
  Snapshot fuel h b = Some (Some s) ->
  SnapshotId s = EmptyString /\ SnapshotField s = EmptyString
  /\ Snapshot fuel' h' s = Some None.
Proof.
  unfold Snapshot at 1.
  destruct (_ || _); [discriminate |].
  destruct (fmt.Sprint _ _ _); [| discriminate].
  intros [= <-]. repeat split.
Qed.

Lemma Snapshot_of_snapshot_witness :
  SnapshotId (mkBlob (VMap 1) "42" EmptyString EmptyString 0 "push_event")
    = EmptyString
  /\ SnapshotField (mkBlob (VMap 1) "42" EmptyString EmptyString 0 "push_event")
     = EmptyString
  /\ Snapshot 3 []
       (mkBlob (VMap 1) "42" EmptyString EmptyString 0 "push_event")
     = Some None.
Proof.
  exact (Snapshot_of_snapshot_is_nil 0 3 push_event_heap [] (push_event 0)
           (mkBlob (VMap 1) "42" EmptyString EmptyString 0 "push_event")
           eq_refl).
Defined.

(** ** Attributes after a sequence of pushes *)

Lemma Split_no_dot (s : string) :
  contains_dot s = false -> strings.Split s "." = [s].
Proof.
  induction s as [| c s IH]; intros Hd; [reflexivity |].
  simpl in Hd |- *. apply orb_false_iff in Hd as [Hc Hs].
  rewrite Hc, (IH Hs). reflexivity.
Qed.

Lemma hd_Split_no_dot (s : string) :
  contains_dot (hd EmptyString (strings.Split s ".")) = false.
Proof.
  induction s as [| c s IH]; [reflexivity |].
  simpl. destruct (Ascii.eqb c ".") eqn:Hc; [reflexivity |].
  destruct (strings.Split s ".") as [| piece pieces]; simpl in *;
    rewrite Hc; [reflexivity | exact IH].
Qed.

Lemma hd_Split_eqb (key : string) :
  String.eqb (hd EmptyString (strings.Split key ".")) key
  = negb (contains_dot key).
Proof.
  destruct (contains_dot key) eqn:Hd; simpl.
  - apply String.eqb_neq. intros Heq.
    pose proof (hd_Split_no_dot key) as Hno. rewrite Heq in Hno. congruence.
  - rewrite (Split_no_dot key Hd). apply String.eqb_refl.
Qed.

Lemma Push_ordinary (h : heap) (b : Blob) (key : string) (val : value) :
  strings.HasPrefix key "_" = false ->
  Push h b key val
  = (mkBlob (fst (simplejson.SetPath h (Data b) (strings.Split key ".") val))
       (Id b) (SnapshotId b) (SnapshotField b) (Timestamp b) (Type_ b),
     snd (simplejson.SetPath h (Data b) (strings.Split key ".") val), None).
Proof.
  intros Hp. unfold Push. rewrite Hp. cbv zeta.
  destruct (simplejson.SetPath h (Data b) (strings.Split key ".") val).
  reflexivity.
Qed.

Lemma Push_reserved_same_document (h : heap) (b : Blob) (key : string)
    (val : value) :
  strings.HasPrefix key "_" = true ->
  Data (fst (fst (Push h b key val))) = Data b
  /\ snd (fst (Push h b key val)) = h.
Proof.
  intros Hp. rewrite Push_reserved by exact Hp. simpl.
  split; [| reflexivity]. unfold pushSpecialAttribute.
  destruct (metaFields !! key) as [f |]; [| reflexivity].
  destruct val; try reflexivity. apply assign_same_data.
Qed.

(** One [Push] on a well-formed document: the path leads to the value,
    and the attributes are the old ones and the first segment. *)
Lemma Push_reads_back (h : heap) (b : Blob) (key : string) (val : value) :
  strings.HasPrefix key "_" = false -> doc_wf h (Data b) ->
  snd (Push h b key val) = None
  /\ simplejson.GetPath (snd (fst (Push h b key val)))
       (Data (fst (fst (Push h b key val)))) (strings.Split key ".") = val.
Proof.
  intros Hp Hwf. rewrite (Push_ordinary h b key val Hp). simpl.
  split; [reflexivity |].
  destruct (Split_cons key ".") as (p & rest & ->).
  destruct (simplejson.SetPath h (Data b) (p :: rest) val) as [data h'] eqn:Hs.
  apply (SetPath_spec h (Data b) p rest val Hwf data h' Hs).
Qed.

Lemma Push_HasAttribute (h : heap) (b : Blob) (key attr : string)
    (val : value) :
  doc_wf h (Data b) ->
  HasAttribute (snd (fst (Push h b key val))) (fst (fst (Push h b key val)))
    attr
  = HasAttribute h b attr
    || (negb (strings.HasPrefix key "_")
        && String.eqb (hd EmptyString (strings.Split key ".")) attr).
Proof.
  intros Hwf. destruct (strings.HasPrefix key "_") eqn:Hp.
  - destruct (Push_reserved_same_document h b key val Hp) as [Hd Hh].
    unfold HasAttribute. rewrite Hd, Hh. simpl. rewrite orb_false_r.
    reflexivity.
  - rewrite (Push_ordinary h b key val Hp). simpl.
    destruct (Split_cons key ".") as (p & rest & ->). simpl hd.
    destruct (simplejson.SetPath h (Data b) (p :: rest) val) as [data h'] eqn:Hs.
    destruct (SetPath_spec h (Data b) p rest val Hwf data h' Hs)
      as (_ & Hhas & Hother).
    unfold HasAttribute. simpl.
    destruct (String.eqb_spec p attr) as [-> | Hne].
    + destruct Hhas as [x ->]. rewrite orb_true_r. reflexivity.
    + rewrite (Hother attr) by congruence. rewrite orb_false_r. reflexivity.
Qed.

Lemma pushes_HasAttribute (ops : list (string * value)) (attr : string) :
  Forall (fun op => not_object (snd op)) ops ->
  forall h b, ordered h -> (forall l, Data b = VMap l -> l < length h) ->
    HasAttribute (snd (pushes h b ops)) (fst (pushes h b ops)) attr
    = HasAttribute h b attr || pushed_attr attr ops.
Proof.
  induction 1 as [| [key val] ops Hval _ IH]; intros h b Ho Hdata.
  - simpl. rewrite orb_false_r. reflexivity.
  - simpl pushes.
    pose proof (Push_ordered h b key val Hval Ho Hdata) as [Ho' Hdata'].
    assert (Hwf : doc_wf h (Data b)).
    { unfold doc_wf. destruct (Data b) eqn:Hd; try exact I.
      apply ordered_tree_below; [exact Ho | apply Hdata; reflexivity]. }
    pose proof (Push_HasAttribute h b key attr val Hwf) as Hstep.
    destruct (Push h b key val) as [[b' h'] err]. simpl in Ho', Hdata', Hstep.
    rewrite (IH h' b' Ho' Hdata'), Hstep. simpl. rewrite orb_assoc.
    reflexivity.
Qed.

Lemma NewBlob_allocated (now : Time) (event id : string) (h : heap) :
  ordered h ->
  ordered (snd (NewBlob now event id h))
  /\ Data (fst (NewBlob now event id h)) = VMap (length h)
  /\ snd (NewBlob now event id h) = h ++ [∅].
Proof.
  intros Ho. unfold NewBlob, simplejson.New, make_map. simpl.
  split_and!; [apply ordered_alloc, Ho | reflexivity | reflexivity].
Qed.

Lemma HasAttribute_after_pushes_gen (now : Time) (event id : string)
    (h : heap) (ops : list (string * value)) (attr : string) :
  ordered h -> Forall (fun op => not_object (snd op)) ops ->
  HasAttribute
    (snd (pushes (snd (NewBlob now event id h))
            (fst (NewBlob now event id h)) ops))
    (fst (pushes (snd (NewBlob now event id h))
            (fst (NewBlob now event id h)) ops)) attr
  = pushed_attr attr ops.
Proof.
  intros Ho Hops.
  destruct (NewBlob_allocated now event id h Ho) as (Ho1 & Hd & Hh).
  rewrite (pushes_HasAttribute ops attr Hops); [| exact Ho1 |].
  - unfold HasAttribute, simplejson.CheckGet, simplejson.Map.
    rewrite Hd, Hh. rewrite lookup_app_r by lia. rewrite Nat.sub_diag.
    simpl. rewrite lookup_empty. reflexivity.
  - intros l Hl. rewrite Hd in Hl. injection Hl as <-. rewrite Hh.
    rewrite length_app. simpl. lia.
Qed.

(** X4: on a Blob made by [NewBlob], after any sequence of pushes of
    values that are not objects, [HasAttribute] is true of exactly the
    first segments of the ordinary keys pushed. *)
Theorem HasAttribute_after_pushes (now : Time) (event id : string)
    (h : heap) (ops : list (string * value)) (attr : string) :
  ordered h -> Forall (fun op => not_object (snd op)) ops ->
  let b := fst (NewBlob now event id h) in
  let h1 := snd (NewBlob now event id h) in
  HasAttribute (snd (pushes h1 b ops)) (fst (pushes h1 b ops)) attr
  = pushed_attr attr ops.
Proof.
  intros Ho Hops b h1. subst b h1.
  apply HasAttribute_after_pushes_gen; assumption.
Qed.

Lemma HasAttribute_after_pushes_witness :
  HasAttribute
    (snd (pushes (snd (NewBlob 0 "issues" "7" []))
            (fst (NewBlob 0 "issues" "7" []))
            [("user.login", VString "octocat"); ("_type", VString "issue");
             ("number", VInt 7)]))
    (fst (pushes (snd (NewBlob 0 "issues" "7" []))
            (fst (NewBlob 0 "issues" "7" []))
            [("user.login", VString "octocat"); ("_type", VString "issue");
             ("number", VInt 7)]))
    "user"
  = pushed_attr "user"
      [("user.login", VString "octocat"); ("_type", VString "issue");
       ("number", VInt 7)].
Proof.
  apply (HasAttribute_after_pushes 0 "issues" "7" [] _ "user" ordered_nil).
  repeat constructor; discriminate.
Defined.

(** X5: on a well-formed document, after [Push(key, value)] of an
    ordinary key [HasAttribute(key)] is true when the key has no dot, and
    otherwise what it was before: [Push] splits the key at its dots,
    [HasAttribute] takes it as one member name. *)
Theorem HasAttribute_of_pushed_key (h : heap) (b : Blob) (key : string)
    (val : value) :
  strings.HasPrefix key "_" = false -> doc_wf h (Data b) ->
  HasAttribute (snd (fst (Push h b key val))) (fst (fst (Push h b key val)))
    key
  = negb (contains_dot key) || HasAttribute h b key.
Proof.
  intros Hp Hwf. rewrite (Push_HasAttribute h b key key val Hwf).
  rewrite Hp, hd_Split_eqb. simpl. apply orb_comm.
Qed.

Lemma HasAttribute_of_pushed_key_witness :
  HasAttribute
    (snd (fst (Push push_event_heap (push_event 0) "repository.name"
                 (VString "x"))))
    (fst (fst (Push push_event_heap (push_event 0) "repository.name"
                 (VString "x"))))
    "repository.name"
  = negb (contains_dot "repository.name")
    || HasAttribute push_event_heap (push_event 0) "repository.name".
Proof.
  exact (HasAttribute_of_pushed_key push_event_heap (push_event 0)
           "repository.name" (VString "x") eq_refl push_event_heap_tree).
Defined.

Lemma pushed_attr_dotted (attr : string) (ops : list (string * value)) :
  contains_dot attr = true -> pushed_attr attr ops = false.
Proof.
  intros Hd. induction ops as [| [k v] ops IH]; [reflexivity |].
  change (pushed_attr attr ((k, v) :: ops)) with
    (negb (strings.HasPrefix k "_")
     && String.eqb (hd EmptyString (strings.Split k ".")) attr
     || pushed_attr attr ops).
  rewrite IH, orb_false_r.
  destruct (String.eqb_spec (hd EmptyString (strings.Split k ".")) attr)
    as [Heq | Hne]; [| apply andb_false_r].
  pose proof (hd_Split_no_dot k) as Hno. rewrite Heq in Hno. congruence.
Qed.

Lemma Sprint_scalar (fuel : nat) (h : heap) (v : value) :
  is_scalar v = true -> fmt.Sprint fuel h v = fmt.Sprint 0 [] v.
Proof. destruct v, fuel; simpl; intros Hs; reflexivity || discriminate. Qed.

(** X6: on a Blob made by [NewBlob] and pushed values that are not
    objects, a snapshot field path with a dot in it selects nothing, even
    when data was pushed under that very path: [Snapshot] looks the field
    path up as one member name.  It returns a Blob whose document holds
    [nil] and whose id is [<nil>]. *)
Theorem Snapshot_dotted_field (now : Time) (event id : string) (h : heap)
    (ops : list (string * value)) (fuel : nat) :
  ordered h -> Forall (fun op => not_object (snd op)) ops ->
  let b := fst (pushes (snd (NewBlob now event id h))
                  (fst (NewBlob now event id h)) ops) in
  let h' := snd (pushes (snd (NewBlob now event id h))
                   (fst (NewBlob now event id h)) ops) in
  contains_dot (SnapshotField b) = true -> SnapshotId b <> EmptyString ->
  Snapshot fuel h' b
  = Some (Some (mkBlob VNil "<nil>" EmptyString EmptyString (Timestamp b)
                  (Type_ b))).
Proof.
  intros Ho Hops b h' Hdot Hid.
  pose proof (HasAttribute_after_pushes_gen now event id h ops
                (SnapshotField b) Ho Hops) as Hattr.
  fold b h' in Hattr. rewrite (pushed_attr_dotted _ ops Hdot) in Hattr.
  assert (Hc : simplejson.CheckGet h' (Data b) (SnapshotField b) = None).
  { unfold HasAttribute in Hattr.
    destruct (simplejson.CheckGet h' (Data b) (SnapshotField b));
      [discriminate | reflexivity]. }
  assert (Hf : SnapshotField b <> EmptyString).
  { intros Heq. rewrite Heq in Hdot. discriminate. }
  rewrite Snapshot_nonempty by assumption.
  assert (Hget : simplejson.Get h' (Data b) (SnapshotField b) = VNil).
  { unfold simplejson.Get. unfold simplejson.CheckGet in Hc.
    destruct (simplejson.Map h' (Data b)); [rewrite Hc |]; reflexivity. }
  rewrite Hget, GetPath_nil. destruct fuel; reflexivity.
Qed.

Lemma Snapshot_dotted_field_witness :
  Snapshot 0
    (snd (pushes (snd (NewBlob 0 "push_event" "1" []))
            (fst (NewBlob 0 "push_event" "1" [])) dotted_field_ops))
    (fst (pushes (snd (NewBlob 0 "push_event" "1" []))
            (fst (NewBlob 0 "push_event" "1" [])) dotted_field_ops))
  = Some (Some (mkBlob VNil "<nil>" EmptyString EmptyString 0 "push_event")).
Proof.
  apply (Snapshot_dotted_field 0 "push_event" "1" [] dotted_field_ops 0
           ordered_nil);
    [repeat constructor; discriminate | reflexivity | discriminate].
Defined.

(** ** Blobs built apart stay apart *)

Lemma ordered_reach_ge (h : heap) (r l : loc) :
  ordered h -> rtc (edge h) r l -> r <= l.
Proof.
  intros Ho Hr. induction Hr as [| x y z (m & k & Hm & Hk) _ IH]; [lia |].
  pose proof (Ho x m k y Hm Hk). lia.
Qed.

(** One [Push] of a value that is not an object, on a Blob whose
    document sits at [base] or above: nothing below [base] changes, and
    the document stays at [base] or above. *)
Lemma Push_frame (base : nat) (h : heap) (b : Blob) (key : string)
    (val : value) :
  not_object val -> ordered h -> base <= length h ->
  (forall l, Data b = VMap l -> base <= l < length h) ->
  (forall l, l < base -> snd (fst (Push h b key val)) !! l = h !! l)
  /\ (forall l, Data (fst (fst (Push h b key val))) = VMap l -> base <= l).
Proof.
  intros Hval Ho Hbase Hdata.
  destruct (strings.HasPrefix key "_") eqn:Hp.
  - destruct (Push_reserved_same_document h b key val Hp) as [Hd Hh].
    rewrite Hd, Hh. split; [reflexivity |]. intros l Hl. apply Hdata, Hl.
  - rewrite (Push_ordinary h b key val Hp). simpl.
    destruct (Split_cons key ".") as (p & rest & ->).
    destruct (simplejson.Map h (Data b)) as [m |] eqn:Hmap.
    + destruct (Data b) as [| | | | | | r] eqn:Hroot; try discriminate.
      simpl in Hmap. rewrite (SetPath_object h r m p rest val Hmap).
      cbn [fst snd Data].
      pose proof (Hdata r eq_refl) as Hr. split.
      * intros l Hl. apply setPathFrom_frame.
        -- apply ordered_tree_below; [exact Ho | lia].
        -- lia.
        -- intros Hreach. apply (ordered_reach_ge h r l Ho) in Hreach. lia.
      * intros l [= <-]. lia.
    + rewrite (SetPath_not_object h (Data b) p rest val Hmap).
      cbn [fst snd Data].
      assert (Hn : (h ++ [∅]) !! length h = Some (∅ : gmap string value)).
      { rewrite lookup_app_r by lia. rewrite Nat.sub_diag. reflexivity. }
      split.
      * intros l Hl. rewrite setPathFrom_frame.
        -- apply lookup_app_l. lia.
        -- apply empty_object_tree, Hn.
        -- rewrite length_app. simpl. lia.
        -- intros Hr. apply (empty_object_below _ _ _ Hn) in Hr. lia.
      * intros l [= <-]. exact Hbase.
Qed.

Lemma pushes_frame (base : nat) (ops : list (string * value)) :
  Forall (fun op => not_object (snd op)) ops ->
  forall h b, ordered h -> base <= length h ->
    (forall l, Data b = VMap l -> base <= l < length h) ->
    forall l, l < base -> snd (pushes h b ops) !! l = h !! l.
Proof.
  induction 1 as [| [key val] ops Hval _ IH]; intros h b Ho Hbase Hdata l Hl;
    [reflexivity |].
  simpl pushes.
  assert (Hdata0 : forall l, Data b = VMap l -> l < length h)
    by (intros x Hx; apply Hdata in Hx; lia).
  pose proof (Push_ordered h b key val Hval Ho Hdata0) as [Ho' Hdata'].
  pose proof (Push_frame base h b key val Hval Ho Hbase Hdata) as [Hfr Hab].
  assert (Hlen : base <= length (snd (fst (Push h b key val)))).
  { destruct (decide (base <= length (snd (fst (Push h b key val)))))
      as [Hle | Hgt]; [exact Hle |].
    destruct base as [| base']; [lia |].
    assert (Hlook : snd (fst (Push h b key val)) !! base' = h !! base')
      by (apply Hfr; lia).
    destruct (lookup_lt_is_Some_2 h base') as [m Hm]; [lia |].
    rewrite Hm in Hlook. apply lookup_lt_Some in Hlook. lia. }
  destruct (Push h b key val) as [[b' h'] err]. simpl in *.
  rewrite (IH h' b' Ho' Hlen); [apply Hfr, Hl | | exact Hl].
  intros x Hx. split; [apply Hab, Hx | apply Hdata', Hx].
Qed.

(** Reading a document allocated in [h] only looks at objects of [h]. *)
Lemma GetPath_agree (h h' : heap) (branch : list string) :
  ordered h -> (forall l, l < length h -> h' !! l = h !! l) ->
  forall j, (forall l, j = VMap l -> l < length h) ->
    simplejson.GetPath h' j branch = simplejson.GetPath h j branch.
Proof.
  intros Ho Hsame. induction branch as [| p rest IH]; intros j Hj;
    [reflexivity |].
  simpl.
  assert (Hget : simplejson.Get h' j p = simplejson.Get h j p).
  { unfold simplejson.Get, simplejson.Map. destruct j; try reflexivity.
    rewrite (Hsame l (Hj l eq_refl)). reflexivity. }
  rewrite Hget. apply IH. intros l Hl.
  unfold simplejson.Get, simplejson.Map in Hl.
  destruct j as [| | | | | | r]; try discriminate.
  destruct (h !! r) as [m |] eqn:Hm; [| discriminate].
  destruct (m !! p) as [v |] eqn:Hp; [| discriminate]. subst v.
  eapply Ho; eassumption.
Qed.

(** X7: a Blob made by [NewBlob] has a document of its own.  Whatever
    values that are not objects are pushed on it, every object the store
    held before is left as it was, and every document allocated before
    reads the same at every path. *)
Theorem NewBlob_leaves_other_documents (now : Time) (event id : string)
    (h : heap) (ops : list (string * value)) :
  ordered h -> Forall (fun op => not_object (snd op)) ops ->
  let h' := snd (pushes (snd (NewBlob now event id h))
                   (fst (NewBlob now event id h)) ops) in
  (forall l, l < length h -> h' !! l = h !! l)
  /\ (forall other branch,
        (forall l, Data other = VMap l -> l < length h) ->
        simplejson.GetPath h' (Data other) branch
        = simplejson.GetPath h (Data other) branch).
Proof.
  intros Ho Hops h'.
  destruct (NewBlob_allocated now event id h Ho) as (Ho1 & Hd & Hh).
  assert (Hsame : forall l, l < length h -> h' !! l = h !! l).
  { intros l Hl. subst h'.
    rewrite (pushes_frame (length h) ops Hops); [| exact Ho1 | | | exact Hl].
    - rewrite Hh. apply lookup_app_l, Hl.
    - rewrite Hh, length_app. lia.
    - intros x Hx. rewrite Hd in Hx. injection Hx as <-.
      rewrite Hh, length_app. simpl. lia. }
  split; [exact Hsame |].
  intros other branch Hother. apply GetPath_agree; assumption.
Qed.

Lemma push_event_heap_ordered : ordered push_event_heap.
Proof.
  apply (NewJson_ordered [] push_event_heap push_event_payload (VMap 0)
           ordered_nil).
  vm_compute. reflexivity.
Qed.

Lemma NewBlob_leaves_other_documents_witness :
  let h' := snd (pushes (snd (NewBlob 5 "issues" "7" push_event_heap))
                   (fst (NewBlob 5 "issues" "7" push_event_heap))
                   [("repository.id", VInt 9)]) in
  (forall l, l < 2 -> h' !! l = push_event_heap !! l)
  /\ (forall other branch,
        (forall l, Data other = VMap l -> l < 2) ->
        simplejson.GetPath h' (Data other) branch
        = simplejson.GetPath push_event_heap (Data other) branch).
Proof.
  apply (NewBlob_leaves_other_documents 5 "issues" "7" push_event_heap
           [("repository.id", VInt 9)] push_event_heap_ordered).
  repeat constructor; discriminate.
Defined.

(** ** The decoder works on objects of its own *)

Lemma map_store_app_r (h0 ext : heap) (m : loc) (k : string) (v : value) :
  length h0 <= m ->
  map_store (h0 ++ ext) m k v = h0 ++ map_store ext (m - length h0) k v.
Proof.
  intros Hm. unfold map_store. rewrite lookup_app_r by exact Hm.
  destruct (ext !! (m - length h0)); [| reflexivity].
  apply insert_app_r_alt, Hm.
Qed.

Lemma ext_goto (h0 : heap) (s : json.scanner) (st : json.state) :
  scanner_ext h0 s -> state_above (length h0) st ->
  scanner_ext h0 (json.goto s st).
Proof.
  intros (He & Hs & _) Hst. split_and!; [exact He | exact Hs | exact Hst].
Qed.

Lemma ext_fail (h0 : heap) (s : json.scanner) (c : ascii) :
  scanner_ext h0 s -> scanner_ext h0 (json.fail s c).
Proof. intros (He & Hs & _). split_and!; [exact He | exact Hs | exact I]. Qed.

Lemma ext_endValue (h0 ext : heap) (ps : list json.frame) (v : value) :
  stack_above (length h0) ps ->
  (forall l, v = VMap l -> length h0 <= l) ->
  scanner_ext h0 (json.endValue (h0 ++ ext) ps v).
Proof.
  intros Hs Hv. destruct ps as [| [m [k |] | elems] ps]; simpl.
  - split_and!; [eauto | exact Hs |]. simpl.
    destruct v; try exact I. apply (Hv l eq_refl).
  - inversion Hs as [| f ps' Hm Hps]; subst.
    split_and!; simpl.
    + rewrite map_store_app_r by exact Hm. eauto.
    + constructor; assumption.
    + exact I.
  - split_and!; [simpl; eauto | exact Hs | exact I].
  - inversion Hs as [| f ps' _ Hps]; subst.
    split_and!; [simpl; eauto | constructor; [exact I | exact Hps] | exact I].
Qed.

Lemma ext_afterValue (h0 : heap) (s : json.scanner) (c : ascii) :
  scanner_ext h0 s -> scanner_ext h0 (json.afterValue s c).
Proof.
  intros Hext. pose proof Hext as ([ext He] & Hs & _).
  unfold json.afterValue.
  destruct (json.isSpace c); [exact Hext |].
  destruct (json.parseState s) as [| [m [k |] | elems] ps] eqn:Hps.
  - apply ext_fail, Hext.
  - destruct (Ascii.eqb c ":");
      [apply ext_goto; [exact Hext | exact I] | apply ext_fail, Hext].
  - destruct (Ascii.eqb c ",");
      [apply ext_goto; [exact Hext | exact I] |].
    destruct (Ascii.eqb c "}"); [| apply ext_fail, Hext].
    inversion Hs as [| f ps' Hm Hbelow]; subst. rewrite He.
    apply ext_endValue; [exact Hbelow |]. intros l [= <-]. exact Hm.
  - destruct (Ascii.eqb c ",");
      [apply ext_goto; [exact Hext | exact I] |].
    destruct (Ascii.eqb c "]"); [| apply ext_fail, Hext].
    inversion Hs as [| f ps' _ Hbelow]; subst. rewrite He.
    apply ext_endValue; [exact Hbelow | discriminate].
Qed.

Lemma ext_endString (h0 : heap) (s : json.scanner) (raw : list ascii) :
  scanner_ext h0 s -> scanner_ext h0 (json.endString s raw).
Proof.
  intros Hext. pose proof Hext as ([ext He] & Hs & _).
  unfold json.endString.
  destruct (json.parseState s) as [| [m [k |] | elems] ps] eqn:Hps;
    try (rewrite He; apply ext_endValue; [exact Hs | discriminate]).
  inversion Hs as [| f ps' Hm Hbelow]; subst.
  split_and!; [simpl; eauto | constructor; assumption | exact I].
Qed.

Lemma ext_endNumber (h0 : heap) (s : json.scanner) (lit : list ascii)
    (c : ascii) :
  scanner_ext h0 s -> scanner_ext h0 (json.endNumber s lit c).
Proof.
  intros Hext. pose proof Hext as ([ext He] & Hs & _).
  unfold json.endNumber.
  assert (Hend : scanner_ext h0
                   (json.endValue (json.store s) (json.parseState s)
                      (VNumber (string_of_list_ascii (rev lit)))))
    by (rewrite He; apply ext_endValue; [exact Hs | discriminate]).
  destruct (json.step _); try apply ext_afterValue; exact Hend.
Qed.

Lemma ext_beginString (h0 : heap) (s : json.scanner) (c : ascii) :
  scanner_ext h0 s -> scanner_ext h0 (json.beginString s c).
Proof.
  intros Hext. unfold json.beginString.
  destruct (json.isSpace c); [exact Hext |].
  destruct (Ascii.eqb c json.dquote);
    [apply ext_goto; [exact Hext | exact I] | apply ext_fail, Hext].
Qed.

Lemma ext_beginValue (h0 : heap) (s : json.scanner) (c : ascii) :
  scanner_ext h0 s -> scanner_ext h0 (json.beginValue s c).
Proof.
  intros Hext. pose proof Hext as ([ext He] & Hs & _).
  unfold json.beginValue.
  repeat match goal with
         | |- scanner_ext _ (if ?t then _ else _) => destruct t
         end;
    try (apply ext_goto; [exact Hext | exact I]);
    try (apply ext_fail, Hext).
  - unfold make_map. split_and!; simpl.
    + rewrite He, <- app_assoc. eauto.
    + constructor; [| exact Hs]. rewrite He, length_app. lia.
    + exact I.
  - split_and!; simpl; [eauto | constructor; [exact I | exact Hs] | exact I].
Qed.

Lemma ext_scan (h0 : heap) (s : json.scanner) (c : ascii) :
  scanner_ext h0 s -> scanner_ext h0 (json.scan s c).
Proof.
  intros Hext. pose proof Hext as ([ext He] & Hs & Hst). unfold json.scan.
  destruct (json.step s) eqn:Hstep;
    repeat match goal with
           | |- scanner_ext _ (if ?t then _ else _) => destruct t
           | |- scanner_ext _ (match ?l with [] => _ | _ :: _ => _ end) =>
               destruct l
           end;
    first [ exact Hext
          | apply ext_goto; [exact Hext | exact I]
          | apply ext_goto; [exact Hext | exact Hst]
          | apply ext_fail, Hext
          | apply ext_beginValue, Hext
          | apply ext_beginString, Hext
          | apply ext_afterValue, Hext
          | apply ext_endString, Hext
          | apply ext_endNumber, Hext
          | rewrite He; apply ext_endValue; [exact Hs | ] ].
  intros l ->. destruct Hst.
Qed.

Lemma ext_fold (h0 : heap) (bytes : list ascii) :
  forall s, scanner_ext h0 s -> scanner_ext h0 (fold_left json.scan bytes s).
Proof.
  induction bytes as [| c bytes IH]; intros s Hext; [exact Hext |].
  simpl. apply IH, ext_scan, Hext.
Qed.

Lemma NewJson_extends (h h' : heap) (body : string) (d : value) :
  NewJson h body = inl (d, h') ->
  (exists ext, h' = h ++ ext) /\ (forall l, d = VMap l -> length h <= l).
Proof.
  unfold NewJson, json.Decode.
  pose proof (ext_fold h (list_ascii_of_string body)
                (json.mkScanner h [] json.stateBeginValue)) as Hext.
  destruct Hext as (He & _ & Hst).
  { split_and!; [exists []; simpl; rewrite app_nil_r; reflexivity
                | constructor | exact I]. }
  destruct (json.step _) eqn:Hstep; try discriminate;
    try (destruct (json.parseState _); [| discriminate];
         intros [= <- <-]; split; [exact He | discriminate]).
  intros [= <- <-]. split; [exact He |].
  intros l ->. exact Hst.
Qed.

(** X8: [NewBlobFromPayload], when it succeeds, leaves every object the
    store held as it was (the store only grows), and the document of the
    new Blob, when an object, is a new one.  When it fails, there is no
    new store at all. *)
Theorem NewBlobFromPayload_extends_store (now : Time) (event id : string)
    (h h' : heap) (payload : string) (b : Blob) :
  NewBlobFromPayload now event id h payload = inl (b, h') ->
  (exists ext, h' = h ++ ext)
  /\ (forall l, l < length h -> h' !! l = h !! l)
  /\ (forall l, Data b = VMap l -> length h <= l).
Proof.
  intros Hnew. unfold NewBlobFromPayload in Hnew.
  destruct (NewJson h payload) as [[d h1] |] eqn:Hd; [| discriminate].
  injection Hnew as <- <-.
  destruct (NewJson_extends h h1 payload d Hd) as [[ext ->] Hroot].
  split_and!; [eauto | | exact Hroot].
  intros l Hl. apply lookup_app_l, Hl.
Qed.

Lemma NewBlobFromPayload_extends_store_witness :
  (exists ext, push_event_heap ++ [ <["id" := VNumber "9"]> ∅ ]
               = push_event_heap ++ ext)
  /\ (forall l, l < 2 ->
        (push_event_heap ++ [ <["id" := VNumber "9"]> ∅ ]) !! l
        = push_event_heap !! l)
  /\ (forall l, VMap 2 = VMap l -> 2 <= l).
Proof.
  apply (NewBlobFromPayload_extends_store 0 "issues" "7" push_event_heap
           (push_event_heap ++ [ <["id" := VNumber "9"]> ∅ ])
           ("{" +:+ quoted "id" +:+ ":9}")
           (NewBlobFromJson 0 "issues" "7" (VMap 2))).
  vm_compute. reflexivity.
Defined.

(** X9: a Blob built from a payload has a document of its own as well.
    After any pushes of values that are not objects on it, every object
    the store held before the Blob was built is as it was, and every
    document allocated before reads the same at every path. *)
Theorem NewBlobFromPayload_leaves_other_documents (now : Time)
    (event id : string) (h h1 : heap) (payload : string) (b : Blob)
    (ops : list (string * value)) :
  ordered h -> NewBlobFromPayload now event id h payload = inl (b, h1) ->
  Forall (fun op => not_object (snd op)) ops ->
  (forall l, l < length h -> snd (pushes h1 b ops) !! l = h !! l)
  /\ (forall other branch,
        (forall l, Data other = VMap l -> l < length h) ->
        simplejson.GetPath (snd (pushes h1 b ops)) (Data other) branch
        = simplejson.GetPath h (Data other) branch).
Proof.
  intros Ho Hnew Hops. unfold NewBlobFromPayload in Hnew.
  destruct (NewJson h payload) as [[d h2] |] eqn:Hd; [| discriminate].
  injection Hnew as <- <-.
  destruct (NewJson_ordered h h2 payload d Ho Hd) as [Ho2 Halloc].
  destruct (NewJson_extends h h2 payload d Hd) as [[ext Hext] Hroot].
  assert (Hsame : forall l, l < length h ->
            snd (pushes h2 (NewBlobFromJson now event id d) ops) !! l
            = h !! l).
  { intros l Hl.
    rewrite (pushes_frame (length h) ops Hops); [| exact Ho2 | | | exact Hl].
    - rewrite Hext. apply lookup_app_l, Hl.
    - rewrite Hext, length_app. lia.
    - intros x Hx. simpl in Hx. split; [apply Hroot, Hx | apply Halloc, Hx]. }
  split; [exact Hsame |].
  intros other branch Hother. apply GetPath_agree; assumption.
Qed.

Lemma NewBlobFromPayload_leaves_other_documents_witness :
  (forall l, l < 2 ->
     snd (pushes (push_event_heap ++ [ <["id" := VNumber "9"]> ∅ ])
            (NewBlobFromJson 0 "issues" "7" (VMap 2))
            [("id", VInt 10)]) !! l
     = push_event_heap !! l)
  /\ (forall other branch,
        (forall l, Data other = VMap l -> l < 2) ->
        simplejson.GetPath
          (snd (pushes (push_event_heap ++ [ <["id" := VNumber "9"]> ∅ ])
                  (NewBlobFromJson 0 "issues" "7" (VMap 2))
                  [("id", VInt 10)])) (Data other) branch
        = simplejson.GetPath push_event_heap (Data other) branch).
Proof.
  apply (NewBlobFromPayload_leaves_other_documents 0 "issues" "7"
           push_event_heap
           (push_event_heap ++ [ <["id" := VNumber "9"]> ∅ ])
           ("{" +:+ quoted "id" +:+ ":9}")
           (NewBlobFromJson 0 "issues" "7" (VMap 2))
           [("id", VInt 10)] push_event_heap_ordered).
  - vm_compute. reflexivity.
  - repeat constructor; discriminate.
Defined.

(** ** Push on a document that is not an object *)

(** X10: when the document of a Blob is not an object (an array, a
    scalar or [nil], as a payload can give), [Push] of an ordinary key
    replaces it: the document becomes a new object whose only attribute
    is the first segment of the key, with the value at the end of the
    path; what the document held is no longer part of it, and no object
    of the store is changed. *)
Theorem Push_replaces_non_object_document (h : heap) (b : Blob)
    (key : string) (val : value) :
  strings.HasPrefix key "_" = false -> (forall l, Data b <> VMap l) ->
  exists h',
    Push h b key val
    = (mkBlob (VMap (length h)) (Id b) (SnapshotId b) (SnapshotField b)
         (Timestamp b) (Type_ b), h', None)
    /\ simplejson.GetPath h' (VMap (length h)) (strings.Split key ".") = val
    /\ (forall attr,
          simplejson.CheckGet h' (VMap (length h)) attr <> None
          <-> attr = hd EmptyString (strings.Split key "."))
    /\ (forall l, l < length h -> h' !! l = h !! l).
Proof.
  intros Hp Hnot.
  assert (Hmap : simplejson.Map h (Data b) = None).
  { destruct (Data b) eqn:Hd; try reflexivity. destruct (Hnot l eq_refl). }
  rewrite (Push_ordinary h b key val Hp).
  destruct (Split_cons key ".") as (p & rest & ->). simpl hd.
  rewrite (SetPath_not_object h (Data b) p rest val Hmap). cbn [fst snd].
  eexists. split; [reflexivity |].
  assert (Hn : (h ++ [∅]) !! length h = Some (∅ : gmap string value)).
  { rewrite lookup_app_r by lia. rewrite Nat.sub_diag. reflexivity. }
  destruct (setPathFrom_root rest val p (h ++ [∅]) (length h) ∅
              (empty_object_tree _ _ Hn) Hn) as [[x Hroot] Hpath].
  cbv zeta in Hroot, Hpath. split_and!.
  - exact Hpath.
  - intros attr. unfold simplejson.CheckGet, simplejson.Map. rewrite Hroot.
    destruct (decide (attr = p)) as [-> | Hne].
    + rewrite lookup_insert_eq. split; [reflexivity | discriminate].
    + rewrite lookup_insert_ne by congruence. rewrite lookup_empty.
      split; [congruence | intros ->; congruence].
  - intros l Hl. rewrite setPathFrom_frame.
    + apply lookup_app_l, Hl.
    + apply empty_object_tree, Hn.
    + rewrite length_app. simpl. lia.
    + intros Hr. apply (empty_object_below _ _ _ Hn) in Hr. lia.
Qed.

Lemma Push_replaces_non_object_document_witness :
  exists h',
    Push [] (NewBlobFromJson 0 "issues" "7" (VSlice [VNumber "1"]))
      "user.login" (VString "octocat")
    = (mkBlob (VMap 0) "7" EmptyString EmptyString 0 "issues", h', None)
    /\ simplejson.GetPath h' (VMap 0) ["user"; "login"] = VString "octocat"
    /\ (forall attr,
          simplejson.CheckGet h' (VMap 0) attr <> None <-> attr = "user")
    /\ (forall l, l < 0 -> h' !! l = ([] : heap) !! l).
Proof.
  apply (Push_replaces_non_object_document []
           (NewBlobFromJson 0 "issues" "7" (VSlice [VNumber "1"]))
           "user.login" (VString "octocat")); [reflexivity | discriminate].
Defined.

(** ** Pushing the same thing twice *)

Lemma map_store_twice (h : heap) (l : loc) (k : string) (v : value) :
  map_store (map_store h l k v) l k v = map_store h l k v.
Proof.
  destruct (h !! l) as [m |] eqn:Hm.
  - unfold map_store at 1. rewrite (map_store_eq h l k v m Hm).
    unfold map_store. rewrite Hm. rewrite list_insert_insert_eq.
    rewrite insert_insert_eq. reflexivity.
  - unfold map_store at 2. rewrite Hm. unfold map_store. rewrite Hm.
    reflexivity.
Qed.

Lemma setPathFrom_twice (branch : list string) (val : value) :
  forall h curr, tree_below h curr ->
    simplejson.setPathFrom (simplejson.setPathFrom h curr branch val) curr
      branch val
    = simplejson.setPathFrom h curr branch val.
Proof.
  induction branch as [| b rest IH]; intros h curr Ht; [reflexivity |].
  destruct rest as [| b' rest].
  - simpl. apply map_store_twice.
  - destruct (tree_below_allocated h curr Ht) as [m Hm].
    change (simplejson.setPathFrom h curr (b :: b' :: rest) val) with
      (let '(n, h1) := simplejson.descend h curr b in
       simplejson.setPathFrom h1 n (b' :: rest) val).
    destruct (simplejson.descend h curr b) as [n h1] eqn:Hd.
    destruct (descend_spec h h1 curr n b m Ht Hm Hd)
      as (Ht1 & Hcurr & Hne & Hlen & _ & _ & Hback).
    pose proof (IH h1 n Ht1) as Hidem.
    assert (Hroot : simplejson.setPathFrom h1 n (b' :: rest) val !! curr
                    = Some (<[b := VMap n]> m)).
    { rewrite setPathFrom_frame; [exact Hcurr | exact Ht1 | | exact Hback].
      eapply lookup_lt_Some, Hcurr. }
    generalize dependent (simplejson.setPathFrom h1 n (b' :: rest) val).
    intros h' Hidem Hroot.
    change (simplejson.setPathFrom h' curr (b :: b' :: rest) val) with
      (let '(n0, h2) := simplejson.descend h' curr b in
       simplejson.setPathFrom h2 n0 (b' :: rest) val).
    assert (Hd' : simplejson.descend h' curr b = (n, h')).
    { unfold simplejson.descend, simplejson.Map. rewrite Hroot.
      rewrite lookup_insert_eq. reflexivity. }
    rewrite Hd'. exact Hidem.
Qed.

(** X11: on a well-formed document, [Push] with the same key and value
    a second time changes nothing: it returns the same Blob, the same
    store and the same error or success as the first call left. *)
Theorem Push_twice (h : heap) (b : Blob) (key : string) (val : value) :
  doc_wf h (Data b) ->
  Push (snd (fst (Push h b key val))) (fst (fst (Push h b key val))) key val
  = Push h b key val.
Proof.
  intros Hwf. destruct (strings.HasPrefix key "_") eqn:Hp.
  - rewrite !(Push_reserved _ _ key val Hp). cbn [fst snd].
    unfold pushSpecialAttribute.
    destruct (metaFields !! key) as [f |] eqn:Hf; [| reflexivity].
    destruct val; try reflexivity. destruct f; reflexivity.
  - rewrite (Push_ordinary h b key val Hp). cbn [fst snd].
    rewrite Push_ordinary by exact Hp. cbn [Data Id SnapshotId SnapshotField
                                             Timestamp Type_].
    destruct (Split_cons key ".") as (p & rest & ->).
    assert (Hgen : forall h0 r m,
              tree_below h0 r -> h0 !! r = Some m ->
              simplejson.SetPath (simplejson.setPathFrom h0 r (p :: rest) val)
                (VMap r) (p :: rest) val
              = (VMap r, simplejson.setPathFrom h0 r (p :: rest) val)).
    { intros h0 r m Ht Hm.
      destruct (setPathFrom_root rest val p h0 r m Ht Hm) as [[x Hroot] _].
      cbv zeta in Hroot.
      rewrite (SetPath_object _ r _ p rest val Hroot).
      rewrite (setPathFrom_twice (p :: rest) val h0 r Ht). reflexivity. }
    destruct (simplejson.Map h (Data b)) as [m |] eqn:Hmap.
    + destruct (Data b) as [| | | | | | r] eqn:Hroot; try discriminate.
      simpl in Hmap, Hwf.
      rewrite (SetPath_object h r m p rest val Hmap). cbn [fst snd].
      rewrite (Hgen h r m Hwf Hmap). reflexivity.
    + rewrite (SetPath_not_object h (Data b) p rest val Hmap). cbn [fst snd].
      assert (Hn : (h ++ [∅]) !! length h = Some (∅ : gmap string value)).
      { rewrite lookup_app_r by lia. rewrite Nat.sub_diag. reflexivity. }
      rewrite (Hgen (h ++ [∅]) (length h) ∅ (empty_object_tree _ _ Hn) Hn).
      reflexivity.
Qed.

Lemma Push_twice_witness :
  Push
    (snd (fst (Push push_event_heap (push_event 0) "repository.owner.login"
                 (VString "octocat"))))
    (fst (fst (Push push_event_heap (push_event 0) "repository.owner.login"
                 (VString "octocat"))))
    "repository.owner.login" (VString "octocat")
  = Push push_event_heap (push_event 0) "repository.owner.login"
      (VString "octocat").
Proof.
  exact (Push_twice push_event_heap (push_event 0) "repository.owner.login"
           (VString "octocat") push_event_heap_tree).
Defined.

(** ** Pushing the id a snapshot will take *)

Lemma Sprint_scalar_Some (v : value) :
  is_scalar v = true -> is_Some (fmt.Sprint 0 [] v).
Proof. destruct v; simpl; intros Hs; eauto; discriminate. Qed.

(** X12: let a Blob have a well-formed document, a snapshot field path
    that is one ordinary name (no dot, no reserved prefix) and a snapshot
    id path.  After [Push] of a scalar under the key made of the field
    path, a dot and the id path, [Snapshot] returns a Blob whose id is
    the print of that scalar, whose document is the member named by the
    field path, holding the scalar at the id path, and whose kind and
    timestamp are the source's. *)
Theorem Snapshot_after_push_of_id (h : heap) (b : Blob) (val : value)
    (fuel : nat) :
  doc_wf h (Data b) ->
  SnapshotField b <> EmptyString -> SnapshotId b <> EmptyString ->
  strings.HasPrefix (SnapshotField b) "_" = false ->
  contains_dot (SnapshotField b) = false ->
  is_scalar val = true ->
  let key := SnapshotField b +:+ "." +:+ SnapshotId b in
  let b' := fst (fst (Push h b key val)) in
  let h' := snd (fst (Push h b key val)) in
  exists snapshotId,
    fmt.Sprint 0 [] val = Some snapshotId
    /\ Snapshot fuel h' b'
       = Some (Some (mkBlob (simplejson.Get h' (Data b') (SnapshotField b))
                       snapshotId EmptyString EmptyString (Timestamp b)
                       (Type_ b)))
    /\ simplejson.GetPath h'
         (simplejson.Get h' (Data b') (SnapshotField b))
         (strings.Split (SnapshotId b) ".") = val.
Proof.
  intros Hwf Hf Hi Hpf Hdot Hsc key b' h'.
  assert (Hp : strings.HasPrefix key "_" = false)
    by (apply HasPrefix_app; assumption).
  destruct (Push_reads_back h b key val Hp Hwf) as [_ Hpath].
  fold b' h' in Hpath. unfold key in Hpath.
  rewrite (Split_app _ _ (Split_no_dot _ Hdot)) in Hpath.
  change (simplejson.GetPath h' (Data b')
            (SnapshotField b :: strings.Split (SnapshotId b) "."))
    with (simplejson.GetPath h'
            (simplejson.Get h' (Data b') (SnapshotField b))
            (strings.Split (SnapshotId b) ".")) in Hpath.
  assert (Hmeta : SnapshotField b' = SnapshotField b
                  /\ SnapshotId b' = SnapshotId b
                  /\ Timestamp b' = Timestamp b /\ Type_ b' = Type_ b).
  { subst b'. rewrite (Push_ordinary h b key val Hp). repeat split. }
  destruct Hmeta as (Hf' & Hi' & Ht' & Hty').
  destruct (Sprint_scalar_Some val Hsc) as [sid Hsid].
  exists sid. split; [exact Hsid |]. split; [| exact Hpath].
  rewrite Snapshot_nonempty by congruence.
  rewrite Hf', Hi', Ht', Hty', Hpath.
  rewrite (Sprint_scalar fuel h' val Hsc), Hsid. reflexivity.
Qed.

Lemma Snapshot_after_push_of_id_witness :
  let b' := fst (fst (Push push_event_heap (push_event 0) "repository.id"
                        (VInt 77))) in
  let h' := snd (fst (Push push_event_heap (push_event 0) "repository.id"
                        (VInt 77))) in
  exists snapshotId,
    fmt.Sprint 0 [] (VInt 77) = Some snapshotId
    /\ Snapshot 0 h' b'
       = Some (Some (mkBlob (simplejson.Get h' (Data b') "repository")
                       snapshotId EmptyString EmptyString 0 "push_event"))
    /\ simplejson.GetPath h' (simplejson.Get h' (Data b') "repository")
         ["id"] = VInt 77.
Proof.
  apply (Snapshot_after_push_of_id push_event_heap (push_event 0) (VInt 77) 0
           push_event_heap_tree);
    [discriminate | discriminate | reflexivity | reflexivity | reflexivity].
Defined.

(** ** A snapshot is a working Blob *)

(** X13: the snapshot of a Blob with a well-formed document has a
    well-formed document too, so a [Push] of an ordinary key on the
    snapshot succeeds and its path then leads to the value pushed. *)
Theorem Snapshot_is_well_formed (fuel : nat) (h : heap) (b s : Blob)
    (key : string) (val : value) :
  doc_wf h (Data b) -> Snapshot fuel h b = Some (Some s) ->
  strings.HasPrefix key "_" = false ->
  doc_wf h (Data s)
  /\ snd (Push h s key val) = None
  /\ simplejson.GetPath (snd (fst (Push h s key val)))
       (Data (fst (fst (Push h s key val)))) (strings.Split key ".") = val.
Proof.
  intros Hwf Hsnap Hp. apply Snapshot_Some in Hsnap as [Hdata _].
  assert (Hwfs : doc_wf h (Data s)).
  { unfold doc_wf. destruct (Data s) as [| | | | | | l] eqn:Hl; try exact I.
    rewrite <- Hl in Hdata.
    destruct (Snapshot_member_object h b s l Hdata Hl)
      as (r & m & Hroot & Hmap & Hfield).
    rewrite Hroot in Hwf. simpl in Hwf.
    apply (tree_below_child h r l Hwf). exists m, (SnapshotField b). auto. }
  split; [exact Hwfs |]. apply Push_reads_back; assumption.
Qed.

Lemma Snapshot_is_well_formed_witness :
  doc_wf push_event_heap (VMap 1)
  /\ snd (Push push_event_heap
            (mkBlob (VMap 1) "42" EmptyString EmptyString 0 "push_event")
            "owner.login" (VString "octocat")) = None
  /\ simplejson.GetPath
       (snd (fst (Push push_event_heap
                    (mkBlob (VMap 1) "42" EmptyString EmptyString 0
                       "push_event")
                    "owner.login" (VString "octocat"))))
       (Data (fst (fst (Push push_event_heap
                          (mkBlob (VMap 1) "42" EmptyString EmptyString 0
                             "push_event")
                          "owner.login" (VString "octocat")))))
       ["owner"; "login"] = VString "octocat".
Proof.
  exact (Snapshot_is_well_formed 0 push_event_heap (push_event 0)
           (mkBlob (VMap 1) "42" EmptyString EmptyString 0 "push_event")
           "owner.login" (VString "octocat") push_event_heap_tree eq_refl
           eq_refl).
Defined.

(** ** Reading back on the Blobs a program builds *)

(** X14: take a Blob made by [NewBlob], or by [NewBlobFromPayload] from
    any payload it accepts, in a store in allocation order (the empty
    store is one), and push on it any values that are not objects.  Then
    [Push] of an ordinary key with any value succeeds, and the segments
    of the key lead, in the document, to that value. *)
Theorem Push_reads_back_on_built_blobs (now : Time) (event id : string)
    (h : heap) (ops : list (string * value)) (key : string) (val : value) :
  ordered h -> Forall (fun op => not_object (snd op)) ops ->
  strings.HasPrefix key "_" = false ->
  (forall b0 h0,
     NewBlob now event id h = (b0, h0)
     \/ (exists payload,
           NewBlobFromPayload now event id h payload = inl (b0, h0)) ->
     let b := fst (pushes h0 b0 ops) in
     let h1 := snd (pushes h0 b0 ops) in
     snd (Push h1 b key val) = None
     /\ simplejson.GetPath (snd (fst (Push h1 b key val)))
          (Data (fst (fst (Push h1 b key val)))) (strings.Split key ".")
        = val).
Proof.
  intros Ho Hops Hp b0 h0 Hbuilt b h1. apply Push_reads_back; [exact Hp |].
  subst b h1. destruct Hbuilt as [Hnew | [payload Hnew]].
  - pose proof (NewBlob_well_formed now event id h ops Ho Hops) as Hwf.
    rewrite Hnew in Hwf. exact Hwf.
  - exact (NewBlobFromPayload_well_formed now event id h h0 payload b0 ops
             Ho Hnew Hops).
Qed.

Lemma Push_reads_back_on_built_blobs_witness :
  let b := fst (pushes push_event_heap
                  (NewBlobFromJson 0 "push_event" "1" (VMap 0))
                  [("ref", VSlice [VInt 1])]) in
  let h1 := snd (pushes push_event_heap
                   (NewBlobFromJson 0 "push_event" "1" (VMap 0))
                   [("ref", VSlice [VInt 1])]) in
  snd (Push h1 b "ref.name" (VString "main")) = None
  /\ simplejson.GetPath (snd (fst (Push h1 b "ref.name" (VString "main"))))
       (Data (fst (fst (Push h1 b "ref.name" (VString "main")))))
       ["ref"; "name"] = VString "main".
Proof.
  apply (Push_reads_back_on_built_blobs 0 "push_event" "1" []
           [("ref", VSlice [VInt 1])] "ref.name" (VString "main")
           ordered_nil);
    [repeat constructor; discriminate | reflexivity |].
  right. exists push_event_payload. vm_compute. reflexivity.
Defined.

(** ** The print of a decoded value ends *)

Lemma value_nested_ind (P : value -> Prop) :
  P VNil -> (forall b, P (VBool b)) -> (forall s, P (VString s)) ->
  (forall d, P (VNumber d)) -> (forall n, P (VInt n)) ->
  (forall elems, Forall P elems -> P (VSlice elems)) ->
  (forall l, P (VMap l)) ->
  forall v, P v.
Proof.
  intros Hnil Hbool Hstr Hnum Hint Hslice Hmap.
  fix IH 1. intros [| b | s | d | n | elems | l].
  - exact Hnil.
  - apply Hbool.
  - apply Hstr.
  - apply Hnum.
  - apply Hint.
  - apply Hslice. induction elems as [| x elems IHe]; constructor.
    + apply IH.
    + exact IHe.
  - apply Hmap.
Qed.

Lemma forallb_impl {A : Type} (f g : A -> bool) (l : list A) :
  (forall x, f x = true -> g x = true) ->
  forallb f l = true -> forallb g l = true.
Proof.
  intros Hfg. induction l as [| x l IH]; simpl; [trivial |].
  intros H. apply andb_true_iff in H as [Hx Hl].
  rewrite (Hfg x Hx), (IH Hl). reflexivity.
Qed.

Lemma nesting_mono (n : nat) (h : heap) :
  forall v, nesting n h v = true -> nesting (S n) h v = true.
Proof.
  induction n as [| n IH]; intros v.
  - destruct v; simpl; congruence.
  - destruct v; try (simpl; congruence).
    + change (nesting (S n) h (VSlice elems)) with
        (forallb (nesting n h) elems).
      change (nesting (S (S n)) h (VSlice elems)) with
        (forallb (nesting (S n) h) elems).
      apply forallb_impl, IH.
    + change (nesting (S n) h (VMap l)) with
        (match h !! l with
         | Some m => forallb (fun e => nesting n h (snd e)) (map_to_list m)
         | None => false
         end).
      change (nesting (S (S n)) h (VMap l)) with
        (match h !! l with
         | Some m => forallb (fun e => nesting (S n) h (snd e)) (map_to_list m)
         | None => false
         end).
      destruct (h !! l); [| trivial].
      apply forallb_impl. intros e. apply IH.
Qed.

Lemma nesting_mono_le (n n' : nat) (h : heap) (v : value) :
  n <= n' -> nesting n h v = true -> nesting n' h v = true.
Proof.
  induction 1 as [| n' Hle IH]; intros Hn; [exact Hn |].
  apply nesting_mono. auto.
Qed.

(** Finitely many values, each of bounded nesting, have a common bound. *)
Lemma nesting_common_bound {A : Type} (h : heap) (f : A -> value)
    (l : list A) :
  Forall (fun x => exists n, nesting n h (f x) = true) l ->
  exists N, forallb (fun x => nesting N h (f x)) l = true.
Proof.
  induction 1 as [| x l [n Hn] _ [N HN]]; [exists 0; reflexivity |].
  exists (Nat.max n N). simpl. apply andb_true_iff. split.
  - apply (nesting_mono_le n); [lia | exact Hn].
  - eapply forallb_impl; [| exact HN]. intros y.
    apply nesting_mono_le. lia.
Qed.

Lemma refs_slice (elems : list value) (x : value) (r : loc) :
  In x elems -> In r (refs x) -> In r (refs (VSlice elems)).
Proof.
  intros Hx Hr. simpl. apply in_flat_map. exists x. auto.
Qed.

(** In a store in deep allocation order, every value whose objects are
    allocated nests finitely. *)
Lemma nesting_exists (h : heap) :
  deep_ordered h ->
  forall k v, refs_within (length h - k) (length h) v ->
    exists n, nesting n h v = true.
Proof.
  intros Ho. induction k as [| k IHk]; intros v.
  - induction v as [| b | s | d | z | elems IHe | l] using value_nested_ind;
      intros Hv; try (exists 0; reflexivity).
    + assert (Hall : Forall (fun x => exists n, nesting n h x = true) elems).
      { apply Forall_forall. intros x Hx.
        rewrite Forall_forall in IHe. apply (IHe x Hx).
        intros r Hr. apply Hv. apply list_elem_of_In in Hx.
        eapply refs_slice; eassumption. }
      destruct (nesting_common_bound h (fun x => x) elems Hall) as [N HN].
      exists (S N). exact HN.
    + specialize (Hv l (or_introl eq_refl)). lia.
  - induction v as [| b | s | d | z | elems IHe | l] using value_nested_ind;
      intros Hv; try (exists 0; reflexivity).
    + assert (Hall : Forall (fun x => exists n, nesting n h x = true) elems).
      { apply Forall_forall. intros x Hx.
        rewrite Forall_forall in IHe. apply (IHe x Hx).
        intros r Hr. apply Hv. apply list_elem_of_In in Hx.
        eapply refs_slice; eassumption. }
      destruct (nesting_common_bound h (fun x => x) elems Hall) as [N HN].
      exists (S N). exact HN.
    + pose proof (Hv l (or_introl eq_refl)) as Hl.
      destruct (lookup_lt_is_Some_2 h l) as [m Hm]; [lia |].
      assert (Hall : Forall (fun e : string * value =>
                               exists n, nesting n h (snd e) = true)
                       (map_to_list m)).
      { apply Forall_forall. intros [key x] Hx.
        apply elem_of_map_to_list in Hx. simpl. apply IHk.
        intros r Hr. pose proof (Ho l m key x r Hm Hx Hr). lia. }
      destruct (nesting_common_bound h snd (map_to_list m) Hall) as [N HN].
      exists (S N). simpl. rewrite Hm. exact HN.
Qed.

Lemma deep_ordered_ordered (h : heap) : deep_ordered h -> ordered h.
Proof.
  intros Ho l m k l' Hm Hk. apply (Ho l m k (VMap l') l' Hm Hk). left.
  reflexivity.
Qed.

Lemma deep_ordered_nil : deep_ordered [].
Proof. intros l m k v l' Hm. rewrite lookup_nil in Hm. discriminate. Qed.

Lemma deep_ordered_alloc (h : heap) : deep_ordered h -> deep_ordered (h ++ [∅]).
Proof.
  intros Ho l m k v l' Hm Hk Hr. rewrite length_app. simpl.
  destruct (decide (l < length h)) as [Hlt | Hge].
  - rewrite lookup_app_l in Hm by exact Hlt.
    pose proof (Ho l m k v l' Hm Hk Hr). lia.
  - rewrite lookup_app_r in Hm by lia.
    destruct (l - length h) as [| i]; simpl in Hm.
    + injection Hm as <-. rewrite lookup_empty in Hk. discriminate.
    + rewrite lookup_nil in Hm. discriminate.
Qed.

Lemma deep_ordered_map_store (h : heap) (l : loc) (key : string)
    (val : value) :
  deep_ordered h -> refs_within (S l) (length h) val ->
  deep_ordered (map_store h l key val).
Proof.
  intros Ho Hval x m k v y Hm Hk Hr. rewrite map_store_length.
  destruct (decide (x = l)) as [Heq | Hne]; [subst x |].
  - destruct (h !! l) as [ml |] eqn:Hl.
    + rewrite (map_store_eq h l key val ml Hl) in Hm. injection Hm as <-.
      rewrite lookup_insert in Hk. case_decide.
      * injection Hk as <-. pose proof (Hval y Hr). lia.
      * eapply Ho; eassumption.
    + unfold map_store in Hm. rewrite Hl in Hm. congruence.
  - rewrite map_store_ne in Hm by congruence. eapply Ho; eassumption.
Qed.

Lemma refs_within_mono (lo lo' hi hi' : nat) (v : value) :
  lo' <= lo -> hi <= hi' -> refs_within lo hi v -> refs_within lo' hi' v.
Proof. intros Hlo Hhi Hv r Hr. pose proof (Hv r Hr). lia. Qed.

Lemma refs_within_no_refs (lo hi : nat) (v : value) :
  refs v = [] -> refs_within lo hi v.
Proof. intros Hv r Hr. rewrite Hv in Hr. destruct Hr. Qed.

Lemma stack_deep_mono (ps : list json.frame) (hi hi' : nat) :
  hi <= hi' -> stack_deep hi ps -> stack_deep hi' ps.
Proof.
  intros Hle. induction ps as [| [m key | elems] ps IH]; simpl.
  - trivial.
  - intros [Hm Hps]. split; [lia | auto].
  - intros [He Hps]. split; [| auto].
    eapply Forall_impl; [exact He |]. intros v.
    apply refs_within_mono; lia.
Qed.

Lemma floor_le (ps : list json.frame) (hi : nat) :
  stack_deep hi ps -> floor ps <= hi.
Proof.
  induction ps as [| [m key | elems] ps IH]; simpl.
  - lia.
  - intros [Hm _]. lia.
  - intros [_ Hps]. auto.
Qed.

Lemma deep_goto (s : json.scanner) (st : json.state) :
  deep_inv s -> state_deep (length (json.store s)) st ->
  deep_inv (json.goto s st).
Proof.
  intros (Ho & Hs & _) Hst. split_and!; [exact Ho | exact Hs | exact Hst].
Qed.

Lemma deep_fail (s : json.scanner) (c : ascii) :
  deep_inv s -> deep_inv (json.fail s c).
Proof. intros (Ho & Hs & _). split_and!; [exact Ho | exact Hs | exact I]. Qed.

Lemma deep_endValue (h : heap) (ps : list json.frame) (v : value) :
  deep_ordered h -> stack_deep (length h) ps ->
  refs_within (floor ps) (length h) v ->
  deep_inv (json.endValue h ps v).
Proof.
  intros Ho Hs Hv. destruct ps as [| [m [k |] | elems] ps]; simpl in *.
  - split_and!; [exact Ho | exact I | exact Hv].
  - destruct Hs as [Hm Hps].
    split_and!; simpl; rewrite ?map_store_length; [| auto | exact I].
    apply deep_ordered_map_store; assumption.
  - split_and!; [exact Ho | exact Hs | exact I].
  - destruct Hs as [He Hps].
    split_and!; simpl; [exact Ho | | exact I].
    split; [constructor; assumption | exact Hps].
Qed.

Lemma deep_afterValue (s : json.scanner) (c : ascii) :
  deep_inv s -> deep_inv (json.afterValue s c).
Proof.
  intros Hinv. pose proof Hinv as (Ho & Hs & _). unfold json.afterValue.
  destruct (json.isSpace c); [exact Hinv |].
  destruct (json.parseState s) as [| [m [k |] | elems] ps] eqn:Hps.
  - apply deep_fail, Hinv.
  - destruct (Ascii.eqb c ":");
      [apply deep_goto; [exact Hinv | exact I] | apply deep_fail, Hinv].
  - destruct (Ascii.eqb c ",");
      [apply deep_goto; [exact Hinv | exact I] |].
    destruct (Ascii.eqb c "}"); [| apply deep_fail, Hinv].
    simpl in Hs. destruct Hs as [Hm Hbelow].
    apply deep_endValue; [exact Ho | exact Hbelow |].
    intros r [<- | []]. exact Hm.
  - destruct (Ascii.eqb c ",");
      [apply deep_goto; [exact Hinv | exact I] |].
    destruct (Ascii.eqb c "]"); [| apply deep_fail, Hinv].
    simpl in Hs. destruct Hs as [He Hbelow].
    apply deep_endValue; [exact Ho | exact Hbelow |].
    intros r Hr. simpl in Hr. apply in_flat_map in Hr as (x & Hx & Hrx).
    apply in_rev in Hx. rewrite Forall_forall in He.
    apply (He x); [apply list_elem_of_In, Hx | exact Hrx].
Qed.

Lemma deep_endString (s : json.scanner) (raw : list ascii) :
  deep_inv s -> deep_inv (json.endString s raw).
Proof.
  intros Hinv. pose proof Hinv as (Ho & Hs & _). unfold json.endString.
  destruct (json.parseState s) as [| [m [k |] | elems] ps] eqn:Hps;
    try (apply deep_endValue;
         [exact Ho | exact Hs | apply refs_within_no_refs; reflexivity]).
  split_and!; [exact Ho | exact Hs | exact I].
Qed.

Lemma deep_endNumber (s : json.scanner) (lit : list ascii) (c : ascii) :
  deep_inv s -> deep_inv (json.endNumber s lit c).
Proof.
  intros Hinv. pose proof Hinv as (Ho & Hs & _). unfold json.endNumber.
  assert (Hend : deep_inv
                   (json.endValue (json.store s) (json.parseState s)
                      (VNumber (string_of_list_ascii (rev lit)))))
    by (apply deep_endValue;
        [exact Ho | exact Hs | apply refs_within_no_refs; reflexivity]).
  destruct (json.step _); try apply deep_afterValue; exact Hend.
Qed.

Lemma deep_beginString (s : json.scanner) (c : ascii) :
  deep_inv s -> deep_inv (json.beginString s c).
Proof.
  intros Hinv. unfold json.beginString.
  destruct (json.isSpace c); [exact Hinv |].
  destruct (Ascii.eqb c json.dquote);
    [apply deep_goto; [exact Hinv | exact I] | apply deep_fail, Hinv].
Qed.

Lemma deep_beginValue (s : json.scanner) (c : ascii) :
  deep_inv s -> deep_inv (json.beginValue s c).
Proof.
  intros Hinv. pose proof Hinv as (Ho & Hs & _). unfold json.beginValue.
  repeat match goal with
         | |- deep_inv (if ?t then _ else _) => destruct t
         end;
    try (apply deep_goto; [exact Hinv | first [exact I | reflexivity]]);
    try (apply deep_fail, Hinv).
  - unfold make_map. split_and!; simpl.
    + apply deep_ordered_alloc, Ho.
    + rewrite length_app. simpl. split.
      * pose proof (floor_le _ _ Hs). lia.
      * eapply stack_deep_mono; [| exact Hs]. lia.
    + exact I.
  - split_and!; simpl; [exact Ho | split; [constructor | exact Hs] | exact I].
Qed.

Lemma deep_scan (s : json.scanner) (c : ascii) :
  deep_inv s -> deep_inv (json.scan s c).
Proof.
  intros Hinv. pose proof Hinv as (Ho & Hs & Hst). unfold json.scan.
  destruct (json.step s) eqn:Hstep;
    repeat match goal with
           | |- deep_inv (if ?t then _ else _) => destruct t
           | |- deep_inv (match ?l with [] => _ | _ :: _ => _ end) =>
               destruct l
           end;
    first [ exact Hinv
          | apply deep_goto; [exact Hinv | exact I]
          | apply deep_goto; [exact Hinv | exact Hst]
          | apply deep_fail, Hinv
          | apply deep_beginValue, Hinv
          | apply deep_beginString, Hinv
          | apply deep_afterValue, Hinv
          | apply deep_endString, Hinv
          | apply deep_endNumber, Hinv
          | apply deep_endValue;
            [exact Ho | exact Hs | apply refs_within_no_refs, Hst] ].
Qed.

Lemma deep_fold (bytes : list ascii) :
  forall s, deep_inv s -> deep_inv (fold_left json.scan bytes s).
Proof.
  induction bytes as [| c bytes IH]; intros s Hinv; [exact Hinv |].
  simpl. apply IH, deep_scan, Hinv.
Qed.

Lemma NewJson_deep (h h' : heap) (body : string) (d : value) :
  deep_ordered h -> NewJson h body = inl (d, h') ->
  deep_ordered h' /\ refs_within 0 (length h') d.
Proof.
  intros Ho. unfold NewJson, json.Decode.
  pose proof (deep_fold (list_ascii_of_string body)
                (json.mkScanner h [] json.stateBeginValue)) as Hinv.
  destruct Hinv as (Ho' & _ & Hst); [split_and!; [exact Ho | exact I..] |].
  destruct (json.step _) eqn:Hstep; try discriminate;
    try (destruct (json.parseState _); [| discriminate];
         intros [= <- <-]; split;
         [exact Ho' | apply refs_within_no_refs; reflexivity]).
  intros [= <- <-]. split; [exact Ho' | exact Hst].
Qed.

Lemma deep_descend (h h1 : heap) (curr n : loc) (b : string) :
  deep_ordered h -> curr < length h ->
  simplejson.descend h curr b = (n, h1) ->
  deep_ordered h1 /\ n < length h1 /\ length h <= length h1.
Proof.
  intros Ho Hcurr Hd.
  destruct (ordered_descend h h1 curr n b (deep_ordered_ordered h Ho)
              Hcurr Hd) as (_ & Hn & Hlen).
  split; [| split; assumption].
  unfold simplejson.descend, simplejson.Map in Hd.
  destruct (lookup_lt_is_Some_2 h curr Hcurr) as [m Hm]. rewrite Hm in Hd.
  assert (Hfresh :
    (length h, map_store (h ++ [∅]) curr b (VMap (length h))) = (n, h1) ->
    deep_ordered h1).
  { intros Heq. apply pair_equal_spec in Heq as [<- <-].
    apply deep_ordered_map_store; [apply deep_ordered_alloc, Ho |].
    intros r [<- | []]. rewrite length_app. simpl. lia. }
  destruct (m !! b) as [v |] eqn:Hb; [| apply Hfresh, Hd].
  destruct v; try (apply Hfresh, Hd).
  apply pair_equal_spec in Hd as [_ <-]. exact Ho.
Qed.

Lemma deep_setPathFrom (branch : list string) (val : value) :
  refs val = [] ->
  forall h curr, deep_ordered h -> curr < length h ->
    deep_ordered (simplejson.setPathFrom h curr branch val).
Proof.
  intros Hval. induction branch as [| b rest IH]; intros h curr Ho Hcurr;
    [exact Ho |].
  destruct rest as [| b' rest].
  - simpl. apply deep_ordered_map_store; [exact Ho |].
    apply refs_within_no_refs, Hval.
  - change (simplejson.setPathFrom h curr (b :: b' :: rest) val) with
      (let '(n, h1) := simplejson.descend h curr b in
       simplejson.setPathFrom h1 n (b' :: rest) val).
    destruct (simplejson.descend h curr b) as [n h1] eqn:Hd.
    destruct (deep_descend h h1 curr n b Ho Hcurr Hd) as (Ho1 & Hn & _).
    apply IH; assumption.
Qed.

Lemma no_refs_not_object (v : value) : refs v = [] -> not_object v.
Proof. intros Hv l ->. discriminate. Qed.

(** [Push] of a value that mentions no object keeps the store in deep
    allocation order and the document within the store. *)
Lemma Push_deep (h : heap) (b : Blob) (key : string) (val : value) :
  refs val = [] -> deep_ordered h -> refs_within 0 (length h) (Data b) ->
  deep_ordered (snd (fst (Push h b key val)))
  /\ refs_within 0 (length (snd (fst (Push h b key val))))
       (Data (fst (fst (Push h b key val)))).
Proof.
  intros Hval Ho Hdata.
  destruct (strings.HasPrefix key "_") eqn:Hp.
  - destruct (Push_reserved_same_document h b key val Hp) as [Hd Hh].
    rewrite Hd, Hh. split; assumption.
  - rewrite (Push_ordinary h b key val Hp). cbn [fst snd Data].
    destruct (Split_cons key ".") as (p & rest & ->).
    destruct (simplejson.Map h (Data b)) as [m |] eqn:Hmap.
    + destruct (Data b) as [| | | | | | r] eqn:Hroot; try discriminate.
      simpl in Hmap. rewrite (SetPath_object h r m p rest val Hmap).
      cbn [fst snd].
      assert (Hr : r < length h) by (eapply lookup_lt_Some, Hmap).
      split; [apply deep_setPathFrom; assumption |].
      destruct (ordered_setPathFrom (p :: rest) val
                  (no_refs_not_object val Hval) h r
                  (deep_ordered_ordered h Ho) Hr) as [_ Hlen].
      intros x [<- | []]. lia.
    + rewrite (SetPath_not_object h (Data b) p rest val Hmap). cbn [fst snd].
      assert (Hl : length h < length (h ++ [∅]))
        by (rewrite length_app; simpl; lia).
      split;
        [apply deep_setPathFrom;
         [exact Hval | apply deep_ordered_alloc, Ho | exact Hl] |].
      destruct (ordered_setPathFrom (p :: rest) val
                  (no_refs_not_object val Hval) (h ++ [∅]) (length h)
                  (ordered_alloc h (deep_ordered_ordered h Ho)) Hl)
        as [_ Hlen].
      intros x [<- | []]. lia.
Qed.

Lemma pushes_deep (ops : list (string * value)) :
  Forall (fun op => refs (snd op) = []) ops ->
  forall h b, deep_ordered h -> refs_within 0 (length h) (Data b) ->
    deep_ordered (snd (pushes h b ops))
    /\ refs_within 0 (length (snd (pushes h b ops)))
         (Data (fst (pushes h b ops))).
Proof.
  induction 1 as [| [key val] ops Hval _ IH]; intros h b Ho Hdata;
    [split; assumption |].
  simpl pushes. pose proof (Push_deep h b key val Hval Ho Hdata) as [Ho' Hd'].
  destruct (Push h b key val) as [[b' h'] err]. apply IH; assumption.
Qed.

Lemma Get_refs (h : heap) (j : simplejson.Json) (p : string) :
  deep_ordered h -> refs_within 0 (length h) j ->
  refs_within 0 (length h) (simplejson.Get h j p).
Proof.
  intros Ho Hj. unfold simplejson.Get, simplejson.Map.
  destruct j as [| | | | | | l]; try (intros r []).
  destruct (h !! l) as [m |] eqn:Hm; [| intros r []].
  destruct (m !! p) as [v |] eqn:Hp; [| intros r []].
  intros r Hr. pose proof (Ho l m p v r Hm Hp Hr). lia.
Qed.

Lemma GetPath_refs (h : heap) (branch : list string) :
  deep_ordered h ->
  forall j, refs_within 0 (length h) j ->
    refs_within 0 (length h) (simplejson.GetPath h j branch).
Proof.
  intros Ho. induction branch as [| p rest IH]; intros j Hj; [exact Hj |].
  simpl. apply IH, Get_refs; assumption.
Qed.

(** In a store in deep allocation order, [Snapshot] returns on every
    Blob whose document lies within the store. *)
Lemma Snapshot_returns (h : heap) (b : Blob) :
  deep_ordered h -> refs_within 0 (length h) (Data b) ->
  exists fuel0 result,
    forall fuel, fuel0 <= fuel -> Snapshot fuel h b = Some result.
Proof.
  intros Ho Hdata.
  destruct (String.eqb_spec (SnapshotId b) EmptyString) as [Hi | Hi].
  { exists 0, None. intros fuel _. unfold Snapshot. rewrite Hi. reflexivity. }
  destruct (String.eqb_spec (SnapshotField b) EmptyString) as [Hf | Hf].
  { exists 0, None. intros fuel _. unfold Snapshot. rewrite Hf.
    rewrite orb_true_r. reflexivity. }
  pose proof (GetPath_refs h (strings.Split (SnapshotId b) ".") Ho _
                (Get_refs h (Data b) (SnapshotField b) Ho Hdata)) as Hrefs.
  destruct (nesting_exists h Ho (length h)
              (simplejson.GetPath h
                 (simplejson.Get h (Data b) (SnapshotField b))
                 (strings.Split (SnapshotId b) "."))) as [n Hn].
  { eapply refs_within_mono; [| | exact Hrefs]; lia. }
  destruct (nesting_Sprint n h _ Hn) as [sid Hsid].
  exists n. eexists. intros fuel Hle.
  rewrite Snapshot_nonempty by assumption.
  rewrite (Sprint_mono_le n fuel h _ sid Hle Hsid). reflexivity.
Qed.

(** X15: [Snapshot] always returns on the Blobs a program builds.  Take
    a Blob made by [NewBlob], or by [NewBlobFromPayload] from any payload
    it accepts, in a store in deep allocation order (the empty store is
    one), and push on it any values that mention no object (scalars,
    arrays of scalars).  Then the print of the snapshot id ends: from
    some fuel on, [Snapshot] returns one and the same result. *)
Theorem Snapshot_returns_on_built_blobs (now : Time) (event id : string)
    (h : heap) (ops : list (string * value)) :
  deep_ordered h -> Forall (fun op => refs (snd op) = []) ops ->
  forall b0 h0,
    NewBlob now event id h = (b0, h0)
    \/ (exists payload,
          NewBlobFromPayload now event id h payload = inl (b0, h0)) ->
    exists fuel0 result,
      forall fuel, fuel0 <= fuel ->
        Snapshot fuel (snd (pushes h0 b0 ops)) (fst (pushes h0 b0 ops))
        = Some result.
Proof.
  intros Ho Hops b0 h0 Hbuilt.
  assert (Hstart : deep_ordered h0 /\ refs_within 0 (length h0) (Data b0)).
  { destruct Hbuilt as [Hnew | [payload Hnew]].
    - unfold NewBlob, simplejson.New, make_map in Hnew.
      apply pair_equal_spec in Hnew as [<- <-]. simpl.
      split; [apply deep_ordered_alloc, Ho |].
      intros r [<- | []]. rewrite length_app. simpl. lia.
    - unfold NewBlobFromPayload in Hnew.
      destruct (NewJson h payload) as [[d h1] |] eqn:Hd; [| discriminate].
      injection Hnew as <- <-. simpl.
      exact (NewJson_deep h h1 payload d Ho Hd). }
  destruct Hstart as [Ho0 Hd0].
  destruct (pushes_deep ops Hops h0 b0 Ho0 Hd0) as [Ho1 Hd1].
  apply Snapshot_returns; assumption.
Qed.

Lemma Snapshot_returns_on_built_blobs_witness :
  exists fuel0 result,
    forall fuel, fuel0 <= fuel ->
      Snapshot fuel
        (snd (pushes push_event_heap
                (NewBlobFromJson 0 "push_event" "1" (VMap 0))
                [(MetadataSnapshotField, VString "repository");
                 (MetadataSnapshotId, VString "id")]))
        (fst (pushes push_event_heap
                (NewBlobFromJson 0 "push_event" "1" (VMap 0))
                [(MetadataSnapshotField, VString "repository");
                 (MetadataSnapshotId, VString "id")]))
      = Some result.
Proof.
  apply (Snapshot_returns_on_built_blobs 0 "push_event" "1" []
           [(MetadataSnapshotField, VString "repository");
            (MetadataSnapshotId, VString "id")] deep_ordered_nil).
  - repeat constructor.
  - right. exists push_event_payload. vm_compute. reflexivity.
Defined.

(** ** What of a payload the decoder reads *)

Lemma list_ascii_of_string_app (a b : string) :
  list_ascii_of_string (a +:+ b)
  = list_ascii_of_string a ++ list_ascii_of_string b.
Proof. induction a as [| c a IH]; simpl; [| rewrite IH]; reflexivity. Qed.




(** X17: white space before the value does not count: a payload and the
    same payload with blanks, tabs or line ends put in front give the
    same Blob or the same error. *)
Theorem NewBlobFromPayload_skips_leading_space (now : Time)
    (event id : string) (h : heap) (blank payload : string) :
  forallb json.isSpace (list_ascii_of_string blank) = true ->
  NewBlobFromPayload now event id h (blank +:+ payload)
  = NewBlobFromPayload now event id h payload.
Proof.
  intros Hsp. unfold NewBlobFromPayload, NewJson, json.Decode.
  rewrite list_ascii_of_string_app, fold_left_app, forallb_app.
  rewrite (scan_spaces h _ Hsp), Hsp. reflexivity.
Qed.

Lemma NewBlobFromPayload_skips_leading_space_witness :
  NewBlobFromPayload 0 "push_event" "1" [] ("  " +:+ push_event_payload)
  = NewBlobFromPayload 0 "push_event" "1" [] push_event_payload.
Proof.
  exact (NewBlobFromPayload_skips_leading_space 0 "push_event" "1" [] "  "
           push_event_payload eq_refl).
Defined.

(** ** Metadata and document do not get in each other's way *)

Lemma assign_or_same_data (b : Blob) (key : string) (val : value) :
  Data (fst (pushSpecialAttribute b key val)) = Data b.
Proof.
  unfold pushSpecialAttribute. destruct (metaFields !! key) as [f |];
    [| reflexivity].
  destruct val; try reflexivity. apply assign_same_data.
Qed.

(** X18: a [Push] of a reserved key and a [Push] of an ordinary key can
    be made in either order: the Blob and the store come out the same. *)
Theorem Push_metadata_commutes (h : heap) (b : Blob) (k1 k2 : string)
    (v1 v2 : value) :
  strings.HasPrefix k1 "_" = true -> strings.HasPrefix k2 "_" = false ->
  pushes h b [(k1, v1); (k2, v2)] = pushes h b [(k2, v2); (k1, v1)].
Proof.
  intros H1 H2. simpl.
  rewrite (Push_reserved h b k1 v1 H1).
  rewrite (Push_ordinary h b k2 v2 H2).
  rewrite Push_ordinary by exact H2. rewrite Push_reserved by exact H1.
  rewrite assign_or_same_data.
  destruct (simplejson.SetPath h (Data b) (strings.Split k2 ".") v2)
    as [data h'].
  cbn [fst snd]. unfold pushSpecialAttribute.
  destruct (metaFields !! k1) as [f |]; [| reflexivity].
  destruct v1; try reflexivity. destruct f; reflexivity.
Qed.

Lemma Push_metadata_commutes_witness :
  pushes push_event_heap (push_event 0)
    [("_type", VString "issue"); ("repository.name", VString "x")]
  = pushes push_event_heap (push_event 0)
      [("repository.name", VString "x"); ("_type", VString "issue")].
Proof.
  exact (Push_metadata_commutes push_event_heap (push_event 0) "_type"
           "repository.name" (VString "issue") (VString "x") eq_refl eq_refl).
Defined.
